(** * Nutrition assistant: the chat endpoint and the citation UI

    A shallow embedding of [rag-chat/src/app/api/chat/route.ts] (the
    POST handler of the chat API, with clients that may reject with any
    value) and of the citation logic of [rag-chat/src/app/page.tsx]
    (citation parsing, without and with the regular-expression objects
    it makes, message rendering and the citation popup), followed by the
    properties the specification states about them. *)

From Stdlib Require Import ZArith String Ascii.
From Stdlib Require Import Floats.SpecFloat.
From stdpp Require Import base list strings gmap pretty.
From Equations Require Import Equations.
From Equations.Prop Require Import Logic.

Set Warnings "-register-all".
Open Scope string_scope.

(** * JavaScript values and built-ins used by the two files *)

Module JS.

(** A JavaScript number is an IEEE-754 binary64; [spec_float] is its
    specification-level representation (sign, mantissa, exponent, the
    two zeros, the infinities and NaN). *)
Definition number : Type := spec_float.

Definition prec : Z := 53.
Definition emax : Z := 1024.

(** The number with integer value [z], rounded to nearest-even when [z]
    has more than 53 significant bits. *)
Definition Number_of_Z (z : Z) : number := binary_normalize prec emax z 0 false.

Definition Number_sub (x y : number) : number := SFsub prec emax x y.
Definition Number_div (x y : number) : number := SFdiv prec emax x y.

(** [Number.isFinite]. *)
Definition Number_isFinite (x : number) : bool :=
  match x with
  | S754_zero _ | S754_finite _ _ _ => true
  | S754_infinity _ | S754_nan => false
  end.

(** The integer a number denotes, when it denotes one. *)
Definition Number_toInteger (x : number) : option Z :=
  match x with
  | S754_zero _ => Some 0%Z
  | S754_finite s m e =>
      let z := if s then Z.neg m else Z.pos m in
      if (0 <=? e)%Z then Some (z * 2 ^ e)%Z
      else if (Z.pos m mod 2 ^ (- e) =? 0)%Z then Some (z / 2 ^ (- e))%Z
      else None
  | S754_infinity _ | S754_nan => None
  end.

(** Values as they come out of [JSON.parse] (and [undefined] for what is
    absent).  Objects map their own property names to values. *)
Inductive value : Type :=
  | VUndefined
  | VNull
  | VBoolean (b : bool)
  | VNumber (n : number)
  | VString (s : string)
  | VArray (elements : list value)
  | VObject (properties : gmap string value).

(** The [typeof] operator. *)
Definition typeof (v : value) : string :=
  match v with
  | VUndefined => "undefined"
  | VNull => "object"
  | VBoolean _ => "boolean"
  | VNumber _ => "number"
  | VString _ => "string"
  | VArray _ => "object"
  | VObject _ => "object"
  end.

(** Strict equality of two strings, as in [typeof v === "number"]. *)
Definition str_eq (a b : string) : bool := bool_decide (a = b).

(** [v?.k] for a property name [k] that is neither an array index nor a
    built-in property of strings, arrays or [Object.prototype] (the two
    names read in this program are [message] and [page]). *)
Definition optional_get (v : value) (k : string) : value :=
  match v with
  | VObject properties => default VUndefined (properties !! k)
  | _ => VUndefined
  end.

(** The test [typeof v === "number"], giving the number it lets through. *)
Definition as_number (v : value) : option number :=
  if str_eq (typeof v) "number"
  then match v with VNumber n => Some n | _ => None end
  else None.

(** [a ?? b]. *)
Definition nullish (v d : value) : value :=
  match v with
  | VUndefined | VNull => d
  | _ => v
  end.

(** What a [throw] carries when its string is at hand: an [Error]
    instance with its message, or any other value, kept as the string
    [String(v)] gives for it. *)
Inductive thrown : Type :=
  | ErrorInstance (message : string)
  | ThrownValue (as_string : string).

(** What a [throw] carries in general: an [Error] instance with its
    message, or any other value, kept as the value itself.  Printing such
    a value is a step of its own, and one that can throw in its turn. *)
Inductive throwable : Type :=
  | IsError (message : string)
  | NotError (v : value).

(** A thrown value whose string is at hand, among the throwables: the
    value that prints as [s] is the string [s]. *)
Definition throwable_of (e : thrown) : throwable :=
  match e with
  | ErrorInstance message => IsError message
  | ThrownValue as_string => NotError (VString as_string)
  end.

(** What the host decides: the digits printed for a number that is not
    a safe integer, and the text of the [TypeError] raised at a site. *)
Record Host : Type := {
  host_digits : number -> string;
  host_type_error : string -> string
}.

Section WithHost.
Context (host : Host).

Definition TypeError (site : string) : thrown :=
  ErrorInstance (host_type_error host site).

(** [Number::toString].  Integers below 2^53 in magnitude print as their
    decimal digits, NaN and the infinities by name; the shortest
    round-trip digits of any other number are the host's. *)
Definition Number_toString (x : number) : string :=
  match x with
  | S754_nan => "NaN"
  | S754_infinity false => "Infinity"
  | S754_infinity true => "-Infinity"
  | _ =>
      match Number_toInteger x with
      | Some z => if (Z.abs z <? 2 ^ 53)%Z then pretty z else host_digits host x
      | None => host_digits host x
      end
  end.

(** [Array.prototype.join]: the elements, each after a separator except
    the first, accumulated from left to right. *)
Definition Array_join (sep : string) (parts : list string) : string :=
  snd (fold_left
         (fun '(k, R) part => (S k, (if k is O then R else R +:+ sep) +:+ part))
         parts (O, "")).

(** The abstract operation [ToString] on an array element, and
    [Array.prototype.toString]: [undefined] and [null] elements print as
    the empty string, nested arrays are joined recursively, and a plain
    object prints as [[object Object]] unless an own [toString] property
    (never callable in parsed JSON) shadows the inherited method. *)
Fixpoint ToString (v : value) : thrown + string :=
  match v with
  | VUndefined => inr "undefined"
  | VNull => inr "null"
  | VBoolean b => inr (if b then "true" else "false")
  | VNumber n => inr (Number_toString n)
  | VString s => inr s
  | VArray elements =>
      (fix join (k : nat) (R : string) (l : list value) : thrown + string :=
         match l with
         | [] => inr R
         | e :: l' =>
             let R := if k is O then R else R +:+ "," in
             match e with
             | VUndefined | VNull => join (S k) R l'
             | _ =>
                 match ToString e with
                 | inl err => inl err
                 | inr s => join (S k) (R +:+ s) l'
                 end
             end
         end) O "" elements
  | VObject properties =>
      if bool_decide (is_Some (properties !! "toString"))
      then inl (TypeError "ToPrimitive")
      else inr "[object Object]"
  end.

(** The method call [v.toString()] on a value that is neither
    [undefined] nor [null]. *)
Definition toString_method (v : value) : thrown + string :=
  match v with
  | VUndefined | VNull => inl (TypeError "toString")
  | VObject properties =>
      if bool_decide (is_Some (properties !! "toString"))
      then inl (TypeError "toString")
      else inr "[object Object]"
  | _ => ToString v
  end.

End WithHost.

(** The line feed, written [\n] in the source. *)
Definition LF : string := String (ascii_of_nat 10) EmptyString.

(** White space of [String.prototype.trim], among the code units below
    256: TAB, LF, VT, FF, CR, SPACE and NBSP. *)
Definition is_whitespace (c : ascii) : bool :=
  let n := nat_of_ascii c in
  (((9 <=? n) && (n <=? 13)) || (n =? 32) || (n =? 160))%nat.

Definition is_empty (s : string) : bool :=
  match s with
  | EmptyString => true
  | String _ _ => false
  end.

Fixpoint trimStart (s : string) : string :=
  match s with
  | EmptyString => EmptyString
  | String c t => if is_whitespace c then trimStart t else s
  end.

Fixpoint trimEnd (s : string) : string :=
  match s with
  | EmptyString => EmptyString
  | String c t =>
      let t' := trimEnd t in
      if is_whitespace c && is_empty t' then EmptyString else String c t'
  end.

(** [String.prototype.trim]. *)
Definition trim (s : string) : string := trimEnd (trimStart s).

(** [a || b] on strings: the empty string is falsy. *)
Definition or_else (a b : string) : string := if is_empty a then b else a.

Definition is_digit (c : ascii) : bool :=
  let n := nat_of_ascii c in ((48 <=? n) && (n <=? 57))%nat.

Definition digit_value (c : ascii) : Z := (Z.of_nat (nat_of_ascii c) - 48)%Z.

(** [parseInt] on a string of decimal digits, the only strings this
    program passes to it: no sign, white space or radix prefix arises.
    The result is kept as the exact integer; the double that JavaScript
    computes is that integer up to 2^53, and a number beyond 2^53 lies,
    like its double, past the end of every array. *)
Definition parseInt (digits : string) : Z :=
  fold_left (fun acc c => if is_digit c then 10 * acc + digit_value c else acc)%Z
            (list_ascii_of_string digits) 0%Z.

(** [xs[i]] for a number [i]: [undefined] left of the first element and
    right of the last. *)
Definition array_get {A} (xs : list A) (i : Z) : option A :=
  if (i <? 0)%Z then None else xs !! Z.to_nat i.

(** [[...new Set(xs)]]: the distinct elements, each at the place of its
    first insertion. *)
Definition Set_add {A} `{EqDecision A} (seen : list A) (x : A) : list A :=
  if bool_decide (x ∈ seen) then seen else seen ++ [x].

Definition Set_of_list {A} `{EqDecision A} (xs : list A) : list A :=
  fold_left Set_add xs [].

End JS.

(** * The citation-marker pattern [\[(\d+)\]] *)

Module Marker.
Import JS.

(** [\d+] is greedy: the longest run of digits at the head of [s], and
    what follows it. *)
Fixpoint digits_span (s : string) : string * string :=
  match s with
  | String c t =>
      if is_digit c
      then let '(ds, rest) := digits_span t in (String c ds, rest)
      else (EmptyString, s)
  | EmptyString => (EmptyString, EmptyString)
  end.

(** One attempt of the pattern at the head of [s]: the digits captured
    by group 1 and the text after the closing bracket.  Giving digits
    back cannot help a failed attempt, since the character after a
    shorter run is a digit and not a closing bracket. *)
Definition match_at (s : string) : option (string * string) :=
  match s with
  | String "[" t =>
      match digits_span t with
      | (String d ds, String "]" rest) => Some (String d ds, rest)
      | _ => None
      end
  | _ => None
  end.

(** The text a match covers. *)
Definition marker (digits : string) : string := "[" +:+ digits +:+ "]".

Lemma digits_span_length s ds rest :
  digits_span s = (ds, rest) -> String.length s = String.length ds + String.length rest.
Proof.
  revert ds rest; induction s as [|c t IH]; intros ds rest; simpl.
  - intros [= <- <-]; reflexivity.
  - destruct (is_digit c).
    + destruct (digits_span t) as [ds' rest'] eqn:E.
      intros [= <- <-]; simpl. rewrite (IH _ _ eq_refl). reflexivity.
    + intros [= <- <-]; reflexivity.
Qed.

Lemma match_at_shorter s ds rest :
  match_at s = Some (ds, rest) -> String.length rest < String.length s.
Proof.
  destruct s as [|c t]; [discriminate|]. unfold match_at.
  destruct (Ascii.ascii_dec c "[") as [->|Hc].
  - destruct (digits_span t) as [ds' r] eqn:E.
    destruct ds' as [|d ds']; [discriminate|].
    destruct r as [|c' rest']; [discriminate|].
    destruct (Ascii.ascii_dec c' "]") as [->|Hc'].
    + intros [= <- <-]. apply digits_span_length in E. simpl in *. lia.
    + destruct c' as [[] [] [] [] [] [] [] []]; try discriminate. congruence.
  - destruct c as [[] [] [] [] [] [] [] []]; try discriminate. congruence.
Qed.

(** The matches of the pattern with the [g] flag, from left to right:
    an attempt at each position, the next one after the end of a match
    or one character further when there is none.  Each match is given
    by its digits. *)
Equations? matches (s : string) : list string by wf (String.length s) lt :=
  matches EmptyString := [];
  matches (String c t) with inspect (match_at (String c t)) := {
    | exist _ (Some (ds, rest)) _ := ds :: matches rest;
    | exist _ None _ := matches t }.
Proof. eapply (match_at_shorter (String c t)); eassumption. Qed.

(** [content.match(/\[(\d+)\]/g)]: every matched text, or [null] when
    there is no match. *)
Definition String_match_global (content : string) : option (list string) :=
  match matches content with
  | [] => None
  | ms => Some (map marker ms)
  end.

(** [s.replace(/[\[\]]/g, '')]. *)
Fixpoint strip_brackets (s : string) : string :=
  match s with
  | EmptyString => EmptyString
  | String c t =>
      if bool_decide (c = "["%char) || bool_decide (c = "]"%char)
      then strip_brackets t
      else String c (strip_brackets t)
  end.

(** [content.split(/(\[\d+\])/)]: the text between the matches, with
    the text of each match (the pattern's only group) in between. *)
Equations? String_split (s : string) : list string by wf (String.length s) lt :=
  String_split EmptyString := [EmptyString];
  String_split (String c t) with inspect (match_at (String c t)) := {
    | exist _ (Some (ds, rest)) _ := EmptyString :: marker ds :: String_split rest;
    | exist _ None _ with String_split t := {
        | text :: parts := String c text :: parts;
        | [] := [String c EmptyString] } }.
Proof. eapply (match_at_shorter (String c t)); eassumption. Qed.

(** [part.match(/\[(\d+)\]/)]: group 1 of the leftmost match. *)
Fixpoint String_match (part : string) : option string :=
  match match_at part with
  | Some (ds, _) => Some ds
  | None =>
      match part with
      | EmptyString => None
      | String _ t => String_match t
      end
  end.

End Marker.

(** * Regular-expression objects

    A regular-expression literal evaluates to a new object each time it
    is reached.  The object holds [lastIndex], which a search with the
    [g] flag reads and writes.  Both literals of [parseCitations] carry
    the flag. *)

Module RegExp.
Import JS Marker.

Inductive Pattern : Type :=
  | CitationMarker
  | Bracket.

Record t : Type := {
  pattern : Pattern;
  lastIndex : nat
}.

(** One attempt of a pattern at the head of [s]: the text after the
    match.  [CitationMarker] is [\[(\d+)\]], [Bracket] is [[\[\]]]. *)
Definition matcher (p : Pattern) (s : string) : option string :=
  match p with
  | CitationMarker =>
      match match_at s with
      | Some (_, rest) => Some rest
      | None => None
      end
  | Bracket =>
      match s with
      | String c t =>
          if bool_decide (c = "["%char) || bool_decide (c = "]"%char)
          then Some t
          else None
      | EmptyString => None
      end
  end.

(** The text of [s] from position [n] on. *)
Fixpoint skip (n : nat) (s : string) : string :=
  match n, s with
  | O, _ => s
  | S _, EmptyString => EmptyString
  | S n', String _ t => skip n' t
  end.

(** A match: where it starts and where it ends. *)
Record MatchResult : Type := {
  index : nat;
  end_index : nat
}.

(** The text a match covers. *)
Definition matched (input : string) (m : MatchResult) : string :=
  String.substring (index m) (end_index m - index m) input.

(** The search of [RegExpBuiltinExec]: an attempt at position [i], whose
    text is [s], then at each position after it, up to the end of the
    input, of length [length]. *)
Fixpoint search (p : Pattern) (length : nat) (s : string) (i : nat)
  : option MatchResult :=
  match matcher p s with
  | Some rest => Some {| index := i; end_index := length - String.length rest |}
  | None =>
      match s with
      | EmptyString => None
      | String _ t => search p length t (S i)
      end
  end.

(** [RegExpBuiltinExec] from [lastIndex]: no match when [lastIndex] is
    past the end. *)
Definition exec_at (p : Pattern) (lastIndex : nat) (input : string)
  : option MatchResult :=
  if (String.length input <? lastIndex)%nat then None
  else search p (String.length input) (skip lastIndex input) lastIndex.

Lemma matcher_shorter p s rest :
  matcher p s = Some rest -> String.length rest < String.length s.
Proof.
  destruct p; simpl.
  - destruct (match_at s) as [[ds r]|] eqn:E; [|discriminate].
    intros [= <-]. exact (match_at_shorter s ds r E).
  - destruct s as [|c t]; [discriminate|].
    destruct (_ || _); [|discriminate]. intros [= <-]. simpl. lia.
Qed.

Lemma skip_length n s : String.length (skip n s) = String.length s - n.
Proof.
  revert s; induction n as [|n IH]; intros s; simpl; [lia|].
  destruct s as [|c t]; simpl; [reflexivity|]. apply IH.
Qed.

Lemma search_bounds p n s i m :
  String.length s + i = n ->
  search p n s i = Some m ->
  i <= index m /\ index m < end_index m /\ end_index m <= n.
Proof.
  revert i; induction s as [|c t IH]; intros i Hn; simpl.
  - destruct (matcher p "") as [rest|] eqn:E; [|discriminate].
    apply matcher_shorter in E. simpl in E. lia.
  - destruct (matcher p (String c t)) as [rest|] eqn:E.
    + apply matcher_shorter in E. simpl in *. intros [= <-]. simpl. lia.
    + intros H. apply IH in H; [lia|]. simpl in Hn. lia.
Qed.

Lemma exec_at_bounds p lastIndex input m :
  exec_at p lastIndex input = Some m ->
  lastIndex <= index m /\ index m < end_index m /\ end_index m <= String.length input.
Proof.
  unfold exec_at. destruct (String.length input <? lastIndex)%nat eqn:E; [discriminate|].
  apply Nat.ltb_ge in E. apply search_bounds. rewrite skip_length. lia.
Qed.

(** The loop of [RegExp.prototype[Symbol.match]] and of
    [RegExp.prototype[Symbol.replace]] with the [g] flag: [exec] is
    called until it fails, each call starting at the [lastIndex] the one
    before has left (one further after an empty match).  The matches,
    and the [lastIndex] left at the end: the failing call sets it to
    0. *)
Equations? exec_all (p : Pattern) (lastIndex : nat) (input : string)
  : list MatchResult * nat by wf (S (String.length input) - lastIndex) lt :=
  exec_all p lastIndex input with inspect (exec_at p lastIndex input) := {
    | exist _ (Some m) _ :=
        let thisIndex := end_index m in
        let nextIndex := if (index m =? thisIndex)%nat then S thisIndex else thisIndex in
        let '(results, lastIndex) := exec_all p nextIndex input in
        (m :: results, lastIndex);
    | exist _ None _ := ([], 0) }.
Proof.
  apply exec_at_bounds in e. subst nextIndex thisIndex.
  destruct (index m =? end_index m)%nat; lia.
Qed.

(** The regular-expression objects there are, by address. *)
Definition Heap : Type := list t.

(** Computations on the heap. *)
Definition St (A : Type) : Type := Heap -> A * Heap.

Definition ret {A} (a : A) : St A := fun h => (a, h).

Definition bind {A B} (m : St A) (k : A -> St B) : St B :=
  fun h => let '(a, h') := m h in k a h'.

Notation "x <- m ;; k" := (bind m (fun x => k))
  (at level 100, m at next level, right associativity).

(** Evaluating a literal with the [g] flag: a new object, its
    [lastIndex] at 0. *)
Definition new_RegExp (p : Pattern) : St nat :=
  fun h => (length h, (h ++ [{| pattern := p; lastIndex := 0 |}])%list).

(** [input.match(rx)]: [lastIndex] is set to 0 and the loop is run;
    every matched text, or [null] when there is none. *)
Definition String_match (input : string) (rx : nat) : St (option (list string)) :=
  fun h =>
    match h !! rx with
    | Some object =>
        let '(results, lastIndex) := exec_all (pattern object) 0 input in
        (match results with
         | [] => None
         | _ => Some (map (matched input) results)
         end,
         <[rx := {| pattern := pattern object; lastIndex := lastIndex |}]> h)
    | None => (None, h)
    end.

(** One match in the result of a replacement: the text since the match
    before, and the replacement. *)
Definition replace_step (input replacement : string) (state : string * nat)
    (m : MatchResult) : string * nat :=
  let '(accumulatedResult, nextSourcePosition) := state in
  if (nextSourcePosition <=? index m)%nat
  then (accumulatedResult
          +:+ String.substring nextSourcePosition
                (index m - nextSourcePosition) input
          +:+ replacement,
        end_index m)
  else (accumulatedResult, nextSourcePosition).

(** The result of a replacement: the text between the matches, with the
    replacement for each match, and the text after the last one. *)
Definition replaced (input replacement : string) (results : list MatchResult)
  : string :=
  let '(accumulatedResult, nextSourcePosition) :=
    fold_left (replace_step input replacement) results ("", 0) in
  accumulatedResult
    +:+ String.substring nextSourcePosition
          (String.length input - nextSourcePosition) input.

(** [input.replace(rx, replacement)] for a replacement text without
    [$]: [lastIndex] is set to 0, the loop is run, and the result is put
    together. *)
Definition String_replace (input : string) (rx : nat) (replacement : string)
  : St string :=
  fun h =>
    match h !! rx with
    | Some object =>
        let '(results, lastIndex) := exec_all (pattern object) 0 input in
        (replaced input replacement results,
         <[rx := {| pattern := pattern object; lastIndex := lastIndex |}]> h)
    | None => (input, h)
    end.

(** [xs.map(f)] for a callback that works on the heap. *)
Fixpoint Array_map {A B} (f : A -> St B) (xs : list A) : St (list B) :=
  match xs with
  | [] => ret []
  | x :: xs' => y <- f x ;; ys <- Array_map f xs' ;; ret (y :: ys)
  end.

End RegExp.

(** * The chat endpoint: [api/chat/route.ts] *)

Module Route.
Import JS.

Module RetrievedChunk.
Record t : Type := {
  content : string;
  similarity : value;
  metadata : value;
  chunk_index : value
}.
End RetrievedChunk.

(** [index] is a position in an array plus one, kept as a natural
    number. *)
Module ApiSource.
Record t : Type := {
  id : string;
  page : option number;
  content : string;
  similarity : number;
  index : nat
}.
End ApiSource.

Inductive Body : Type :=
  | ErrorBody (error : string)
  | AnswerBody (answer : string) (sources : list ApiSource.t).

(** A [Response] before [JSON.stringify]. *)
Record Response : Type := {
  status : Z;
  content_type : string;
  body : Body
}.

Definition json_response (status : Z) (body : Body) : Response :=
  {| status := status; content_type := "application/json"; body := body |}.

(** ** The clients the handler awaits *)

Record ChatMessage : Type := { message_content : option string }.
Record Choice : Type := { message : option ChatMessage }.

(** What [supabase.rpc] resolves to: the rows, and the failure when
    there is one.  The client does not throw it; it hands it over as a
    value of its own, a plain object with a [message] entry. *)
Record RpcResponse : Type := {
  rpc_data : option (list RetrievedChunk.t);
  rpc_error : option throwable
}.

(** What each awaited call resolves to or rejects with.  A call may
    reject with any value. *)
Record Clients : Type := {
  openai_embeddings_create : string -> string -> throwable + list (list number);
  supabase_rpc_call : string -> list number -> Z -> string -> RpcResponse;
  openai_chat_completions_create :
    string -> number -> string -> string -> throwable + list Choice
}.

(** ** Services: the clients whose failures print

    The clients of which every failure is an [Error] instance or a value
    whose string is at hand. *)

Record RpcResult : Type := {
  data : option (list RetrievedChunk.t);
  error : option thrown
}.

Record Services : Type := {
  embeddings_create : string -> string -> thrown + list (list number);
  supabase_rpc : string -> list number -> Z -> string -> RpcResult;
  chat_completions_create : string -> number -> string -> string -> thrown + list Choice
}.

Definition widen {A} (r : thrown + A) : throwable + A :=
  match r with
  | inl e => inl (throwable_of e)
  | inr a => inr a
  end.

Definition clients_of (services : Services) : Clients :=
  {| openai_embeddings_create :=
       fun model input => widen (embeddings_create services model input);
     supabase_rpc_call :=
       fun fn query_embedding match_count filter_source =>
         let r := supabase_rpc services fn query_embedding match_count filter_source in
         {| rpc_data := data r;
            rpc_error := match error r with
                         | Some e => Some (throwable_of e)
                         | None => None
                         end |};
     openai_chat_completions_create :=
       fun model temperature system user =>
         widen (chat_completions_create services model temperature system user) |}.

(** What a request does to the outside, in order. *)
Inductive event : Type :=
  | EmbeddingsCreate (model input : string)
  | SupabaseRpc (fn : string) (query_embedding : list number)
                (match_count : Z) (filter_source : string)
  | ChatCompletionsCreate (model : string) (temperature : number)
                          (system user : string)
  | ConsoleError (label message : string).

(** Computations that may throw and that log their calls. *)
Definition M (A : Type) : Type := list event -> (throwable + A) * list event.

Definition ret {A} (a : A) : M A := fun log => (inr a, log).

Definition throw {A} (e : throwable) : M A := fun log => (inl e, log).

Definition bind {A B} (m : M A) (k : A -> M B) : M B :=
  fun log =>
    match m log with
    | (inl e, log') => (inl e, log')
    | (inr a, log') => k a log'
    end.

Definition emit (ev : event) : M unit := fun log => (inr tt, (log ++ [ev])%list).

(** A step of the language or of the request object: what it throws
    is an [Error] instance, whose string is at hand. *)
Definition lift {A} (r : thrown + A) : M A :=
  match r with
  | inl e => throw (throwable_of e)
  | inr a => ret a
  end.

(** [await] on what a client's call settles to. *)
Definition await {A} (r : throwable + A) : M A :=
  match r with
  | inl e => throw e
  | inr a => ret a
  end.

Definition try_catch {A} (m : M A) (handler : throwable -> M A) : M A :=
  fun log =>
    match m log with
    | (inl e, log') => handler e log'
    | (inr a, log') => (inr a, log')
    end.

Notation "x <- m ;; k" := (bind m (fun x => k))
  (at level 100, m at next level, right associativity).
Notation "m ;;; k" := (bind m (fun _ => k))
  (at level 100, right associativity).

Section Handler.
Context (host : Host) (clients : Clients).

Definition embedQuery (query : string) : M (list number) :=
  emit (EmbeddingsCreate "text-embedding-3-small" query) ;;;
  resp_data <- await (openai_embeddings_create clients "text-embedding-3-small" query) ;;
  match resp_data with
  | embedding :: _ => ret embedding
  | [] => throw (throwable_of (TypeError host "resp.data[0].embedding"))
  end.

(** The page label of a context entry. *)
Definition pageNum (c : RetrievedChunk.t) : string :=
  match as_number (optional_get (RetrievedChunk.metadata c) "page") with
  | Some page => Number_toString host page
  | None => "?"
  end.

(** One entry of the context; [i] is the position in the array, and a
    position prints as its decimal digits. *)
Definition context_entry (i : nat) (c : RetrievedChunk.t) : string :=
  "[" +:+ pretty (i + 1) +:+ "] (Page " +:+ pageNum c +:+ ") "
      +:+ RetrievedChunk.content c.

Definition context (chunks : option (list RetrievedChunk.t)) : string :=
  Array_join (LF +:+ LF) (imap context_entry (default [] chunks)).

Definition fallback_answer : string :=
  "try to response  related to the question and the context provided".

Definition system_prompt : string :=
  "You are a strict RAG assistant. Answer ONLY using the CONTEXT. " +:+
  "try to response related to the question and the context provided " +:+
  "Cite sources like [1], [2] and include page numbers (e.g., p. X) next to each claim. " +:+
  "Format citations as [1], [2], etc. at the end of relevant sentences.".

Definition user_prompt (message context : string) : string :=
  "QUESTION: " +:+ message +:+ LF +:+ LF +:+ "CONTEXT:" +:+ LF +:+ context.

(** The literal [0.2]: the double nearest to one fifth. *)
Definition temperature : number := Number_div (Number_of_Z 2) (Number_of_Z 10).

(** [completion.choices[0]?.message?.content ?? ""]. *)
Definition answer_of (choices : list Choice) : string :=
  match choices with
  | choice :: _ =>
      match message choice with
      | Some m => default "" (message_content m)
      | None => ""
      end
  | [] => ""
  end.

Definition processedSources (chunks : option (list RetrievedChunk.t))
  : list ApiSource.t :=
  imap (fun index chunk =>
          {| ApiSource.id := "source-" +:+ pretty index;
             ApiSource.page :=
               as_number (optional_get (RetrievedChunk.metadata chunk) "page");
             ApiSource.content := RetrievedChunk.content chunk;
             ApiSource.similarity :=
               match as_number (RetrievedChunk.similarity chunk) with
               | Some similarity => similarity
               | None => Number_of_Z 0
               end;
             ApiSource.index := index + 1 |})
       (default [] chunks).

(** [err instanceof Error ? err.message : String(err)], where
    [String(err)] can throw in its turn. *)
Definition error_message (err : throwable) : thrown + string :=
  match err with
  | IsError message => inr message
  | NotError v => ToString host v
  end.

(** The same on a thrown value whose string is at hand. *)
Definition description (err : thrown) : string :=
  match err with
  | ErrorInstance message => message
  | ThrownValue as_string => as_string
  end.

(** The [catch] block.  Nothing catches what it throws. *)
Definition catch_block (err : throwable) : M Response :=
  message <- lift (error_message err) ;;
  emit (ConsoleError "api/chat error:" message) ;;;
  ret (json_response 500 (ErrorBody (or_else message "Unknown error"))).

(** A request, as far as the handler reads it: what [req.json()]
    resolves to or rejects with. *)
Record NextRequest : Type := { json : thrown + value }.

Definition POST (req : NextRequest) : M Response :=
  try_catch
    (body <- lift (json req) ;;
     text <- lift (toString_method host
                     (nullish (optional_get body "message") (VString ""))) ;;
     let message := trim text in
     if is_empty message
     then ret (json_response 400 (ErrorBody "Empty query"))
     else
       queryEmb <- embedQuery message ;;
       emit (SupabaseRpc "match_documents" queryEmb 8 "human-nutrition-text.pdf") ;;;
       let r := supabase_rpc_call clients "match_documents" queryEmb 8
                                  "human-nutrition-text.pdf" in
       let chunks := rpc_data r in
       match rpc_error r with
       | Some error => throw error
       | None =>
           let context := context chunks in
           if is_empty context
           then ret (json_response 200 (AnswerBody fallback_answer []))
           else
             emit (ChatCompletionsCreate "gpt-4o-mini" temperature system_prompt
                                         (user_prompt message context)) ;;;
             choices <- await (openai_chat_completions_create clients "gpt-4o-mini"
                                 temperature system_prompt
                                 (user_prompt message context)) ;;
             let answer := answer_of choices in
             ret (json_response 200 (AnswerBody answer (processedSources chunks)))
       end)
    catch_block.

(** Running the handler on a request: the response, or what the handler
    rejects with, and the calls made. *)
Definition run (req : NextRequest) : (throwable + Response) * list event :=
  POST req [].

End Handler.

(** The handler with services whose failures print. *)
Definition handle (host : Host) (services : Services) (req : NextRequest)
  : (throwable + Response) * list event :=
  run host (clients_of services) req.

End Route.

(** * The chat page: [page.tsx] *)

Module Page.
Import JS Marker.

Module Citation.
Record t : Type := {
  id : string;
  page : number;
  content : string;
  similarity : number
}.
End Citation.

(** A source as the page reads it from the response: every field may be
    missing, and [page] and [similarity] are tested with [typeof]. *)
Module ApiSource.
Record t : Type := {
  id : option string;
  page : value;
  content : option string;
  similarity : value
}.
End ApiSource.

Record Parsed : Type := {
  text : string;
  citations : list Citation.t
}.

(** The citation pushed for the source at [sourceIndex]. *)
Definition citation_of (sourceIndex : Z) (source : ApiSource.t) : Citation.t :=
  {| Citation.id := default ("citation-" +:+ pretty sourceIndex) (ApiSource.id source);
     Citation.page :=
       match as_number (ApiSource.page source) with
       | Some page => page
       | None => Number_of_Z (sourceIndex + 1)
       end;
     Citation.content := default "" (ApiSource.content source);
     Citation.similarity :=
       match as_number (ApiSource.similarity source) with
       | Some similarity => similarity
       | None => Number_of_Z 0
       end |}.

(** [sources] is [None] when the argument is left out or [undefined]:
    the parameter then defaults to the empty array.  The [forEach] with
    its [push] is a fold that appends. *)
Definition parseCitations (content : string) (sources : option (list ApiSource.t))
  : Parsed :=
  let sources := default [] sources in
  let text := content in
  let citations :=
    match String_match_global content with
    | Some matches =>
        if (0 <? length sources)%nat
        then
          let uniqueCitations :=
            Set_of_list (map (fun m => parseInt (strip_brackets m)) matches) in
          fold_left
            (fun citations citationNumber =>
               let sourceIndex := (citationNumber - 1)%Z in
               match array_get sources sourceIndex with
               | Some source => (citations ++ [citation_of sourceIndex source])%list
               | None => citations
               end)
            uniqueCitations []
        else []
    | None => []
    end in
  {| text := text; citations := citations |}.

Inductive Role : Type := user | assistant.

Record Message : Type := {
  role : Role;
  content : string;
  message_citations : option (list Citation.t)
}.

(** The assistant message [sendMessage] appends for a response. *)
Definition assistantMessage (answer : string) (sources : option (list ApiSource.t))
  : Message :=
  let parsed := parseCitations answer sources in
  {| role := assistant;
     content := text parsed;
     message_citations := Some (citations parsed) |}.

(** What a part of a message renders to: a button that opens the popup
    of a citation, or a plain span. *)
Inductive Node : Type :=
  | Button (key : nat) (citation : Citation.t) (label : string)
  | Span (key : nat) (part : string).

Definition render_part (message : Message) (i : nat) (part : string) : Node :=
  match String_match part, message_citations message with
  | Some group1, Some citations =>
      let citationIndex := (parseInt group1 - 1)%Z in
      match array_get citations citationIndex with
      | Some citation => Button i citation ("[" +:+ group1 +:+ "]")
      | None => Span i part
      end
  | _, _ => Span i part
  end.

Definition render_message (message : Message) : list Node :=
  imap (render_part message) (String_split (content message)).

(** ** The citation popup *)

Record CitationPopup : Type := {
  citation : Citation.t;
  x : number;
  y : number
}.

(** The state [citationPopup]: [null] or one popup. *)
Definition PopupState : Type := option CitationPopup.

(** The bounding box of the clicked control, as far as it is read. *)
Record DOMRect : Type := { left : number; top : number }.

Definition handleCitationClick (citation : Citation.t) (rect : DOMRect)
  : PopupState :=
  Some {| citation := citation;
          x := left rect;
          y := Number_sub (top rect) (Number_of_Z 10) |}.

Definition closeCitationPopup : PopupState := None.

(** The two overlays, each rendered only while a popup is set. *)
Inductive Overlay : Type :=
  | PopupPanel (popup : CitationPopup)
  | Scrim.

Definition render_overlays (citationPopup : PopupState) : list Overlay :=
  (match citationPopup with Some popup => [PopupPanel popup] | None => [] end)
  ++ (match citationPopup with Some _ => [Scrim] | None => [] end).

(** The clicks that have a handler on the popup state. *)
Inductive Click : Type :=
  | ClickCitation (citation : Citation.t) (rect : DOMRect)
  | ClickClose
  | ClickScrim.

(** A click can only land on a control that is rendered: the close
    button and the scrim exist only while a popup is set. *)
Inductive step : PopupState -> Click -> PopupState -> Prop :=
  | step_citation st citation rect :
      step st (ClickCitation citation rect) (handleCitationClick citation rect)
  | step_close popup :
      step (Some popup) ClickClose closeCitationPopup
  | step_scrim popup :
      step (Some popup) ClickScrim closeCitationPopup.

Inductive steps : PopupState -> list Click -> PopupState -> Prop :=
  | steps_nil st : steps st [] st
  | steps_cons st click st' clicks st'' :
      step st click st' -> steps st' clicks st'' -> steps st (click :: clicks) st''.

End Page.

(** * Citation parsing with its regular-expression objects *)

Module Stateful.
Import JS Marker Page RegExp.

(** [parseCitations] with the objects its two literals make. *)
Definition parseCitations (content : string) (sources : option (list ApiSource.t))
  : St Parsed :=
  let sources := default [] sources in
  citationRegex <- new_RegExp CitationMarker ;;
  let text := content in
  matches <- String_match content citationRegex ;;
  citations <-
    match matches with
    | Some matches =>
        if (0 <? length sources)%nat
        then
          numbers <- Array_map
                       (fun m =>
                          brackets <- new_RegExp Bracket ;;
                          digits <- String_replace m brackets "" ;;
                          ret (parseInt digits))
                       matches ;;
          let uniqueCitations := Set_of_list numbers in
          ret
            (fold_left
               (fun citations citationNumber =>
                  let sourceIndex := (citationNumber - 1)%Z in
                  match array_get sources sourceIndex with
                  | Some source => (citations ++ [citation_of sourceIndex source])%list
                  | None => citations
                  end)
               uniqueCitations [])
        else ret []
    | None => ret []
    end ;;
  ret {| text := text; citations := citations |}.

End Stateful.

(** * The chat page: sending a message *)

Module Home.
Import JS Marker Page.

(** The component's state: the four [useState] cells, and whether
    [audioContextRef.current] holds an audio context. *)
Record State : Type := {
  input : string;
  messages : list Message;
  isLoading : bool;
  citationPopup : PopupState;
  audioContext : bool
}.

(** The state of a freshly mounted component. *)
Definition initial (audioContext : bool) : State :=
  {| input := "";
     messages := [];
     isLoading := false;
     citationPopup := None;
     audioContext := audioContext |}.

(** What a handler does besides updating the state. *)
Inductive Effect : Type :=
  | PlaySound (frequency duration : number)
  | Fetch (url method content_type : string) (body : value)
  | ConsoleError (label : string) (error : thrown).

(** [playSound]: nothing without an audio context, else one tone. *)
Definition playSound (st : State) (frequency duration : number) : list Effect :=
  if audioContext st then [PlaySound frequency duration] else [].

(** The literals [0.1] and [0.2]: the doubles nearest to one and two
    tenths. *)
Definition playLoadingSound (st : State) : list Effect :=
  playSound st (Number_of_Z 800) (Number_div (Number_of_Z 1) (Number_of_Z 10)).

Definition playResponseSound (st : State) : list Effect :=
  playSound st (Number_of_Z 1000) (Number_div (Number_of_Z 2) (Number_of_Z 10)).

(** The [sources] entry of a response body: missing (or [undefined]),
    [null], or an array of sources. *)
Inductive SourcesEntry : Type :=
  | SourcesMissing
  | SourcesNull
  | SourcesArray (sources : list ApiSource.t).

(** What [await response.json()] gives, as far as [sendMessage] reads
    it: [null], or a value whose [answer] is any value, with its
    [sources] entry. *)
Inductive ResponseData : Type :=
  | DataNull
  | Data (answer : value) (sources : SourcesEntry).

Definition userMessage (input : string) : Message :=
  {| role := user; content := input; message_citations := None |}.

Definition errorMessage : Message :=
  {| role := assistant;
     content := "Sorry, I encountered an error. Please try again.";
     message_citations := None |}.

(** [sendMessage] up to its [await]: [None] when the guard returns at
    once; else the state after the three updates, the loading sound and
    the request.  The request carries the input as typed. *)
Definition sendMessage_begin (st : State) : option (State * list Effect) :=
  if is_empty (trim (input st)) || isLoading st
  then None
  else
    Some ({| input := "";
             messages := messages st ++ [userMessage (input st)];
             isLoading := true;
             citationPopup := citationPopup st;
             audioContext := audioContext st |},
          (playLoadingSound st
           ++ [Fetch "/api/chat" "POST" "application/json"
                     (VObject {[ "message" := VString (input st) ]})])%list).

Section WithHost.
Context (host : Host).

(** The [try] block after the [await]s: reading [data.answer] of [null]
    throws, and so does [content.match] on anything but a string.  In
    [matches && sources.length > 0] the length is read only when there
    is a match, and reading it of [null] throws (the default of the
    parameter stands in for [undefined] alone); without a match nothing
    is read of the sources, and the citations are empty as they are for
    a missing entry. *)
Definition received_message (data : ResponseData) : thrown + Message :=
  match data with
  | DataNull => inl (TypeError host "data.answer")
  | Data (VString answer) SourcesMissing => inr (assistantMessage answer None)
  | Data (VString answer) (SourcesArray sources) =>
      inr (assistantMessage answer (Some sources))
  | Data (VString answer) SourcesNull =>
      match String_match_global answer with
      | Some _ => inl (TypeError host "sources.length")
      | None => inr (assistantMessage answer None)
      end
  | Data _ _ => inl (TypeError host "content.match")
  end.

(** [sendMessage] from the point where [fetch] and [response.json()]
    have settled, on the state of that moment: the [try] block's message
    and the response sound, or the [catch] block's log and apology, and
    in both cases the [finally] block. *)
Definition sendMessage_end (outcome : thrown + ResponseData) (st : State)
  : State * list Effect :=
  let appended (message : Message) :=
    {| input := input st;
       messages := messages st ++ [message];
       isLoading := false;
       citationPopup := citationPopup st;
       audioContext := audioContext st |} in
  match match outcome with
        | inl error => inl error
        | inr data => received_message data
        end with
  | inr assistantMessage => (appended assistantMessage, playResponseSound st)
  | inl error =>
      (appended errorMessage, [ConsoleError "Error sending message:" error])
  end.

End WithHost.

(** [handleKeyPress]: Enter without Shift sends, every other key is left
    to the textarea. *)
Definition handleKeyPress (key : string) (shiftKey : bool) (st : State)
  : option (State * list Effect) :=
  if str_eq key "Enter" && negb shiftKey then sendMessage_begin st else None.

(** The buttons a message shows, with their citations. *)
Definition buttons (message : Message) : list Citation.t :=
  omap (fun node => match node with
                    | Button _ citation _ => Some citation
                    | Span _ _ => None
                    end)
       (render_message message).

(** The excerpt the popup shows: [content.slice(0, 200)] and an ellipsis
    when the content is longer. *)
Definition popup_excerpt (content : string) : string :=
  String.substring 0 200 content
  +:+ (if (200 <? String.length content)%nat then "..." else "").

(** What happens to the page: the textarea changes, a key goes down in
    it, the send button is clicked, the pending request settles, or a
    click lands on a citation, the close button or the scrim. *)
Inductive Event : Type :=
  | Change (value : string)
  | KeyDown (key : string) (shiftKey : bool)
  | ClickSend
  | Settled (outcome : thrown + ResponseData)
  | PopupClick (click : Click).

(** The page with the number of its requests in flight. *)
Record World : Type := {
  state : State;
  in_flight : nat
}.

Definition with_input (st : State) (value : string) : State :=
  {| input := value;
     messages := messages st;
     isLoading := isLoading st;
     citationPopup := citationPopup st;
     audioContext := audioContext st |}.

Definition with_popup (st : State) (popup : PopupState) : State :=
  {| input := input st;
     messages := messages st;
     isLoading := isLoading st;
     citationPopup := popup;
     audioContext := audioContext st |}.

(** The world after a call of [sendMessage]: unchanged when the guard
    returns, else with one more request in flight. *)
Definition after_send (w : World) (sent : option (State * list Effect)) : World :=
  match sent with
  | Some (st, _) => {| state := st; in_flight := S (in_flight w) |}
  | None => w
  end.

Section Steps.
Context (host : Host).

(** One event.  A request settles only while one is in flight; a
    citation is clicked only on a button some message shows; the close
    button and the scrim are there only while a popup is open. *)
Inductive step : World -> Event -> World -> Prop :=
  | step_change w value :
      step w (Change value)
           {| state := with_input (state w) value; in_flight := in_flight w |}
  | step_key w key shiftKey :
      step w (KeyDown key shiftKey)
           (after_send w (handleKeyPress key shiftKey (state w)))
  | step_send w :
      step w ClickSend (after_send w (sendMessage_begin (state w)))
  | step_settled w n outcome :
      in_flight w = S n ->
      step w (Settled outcome)
           {| state := fst (sendMessage_end host outcome (state w));
              in_flight := n |}
  | step_citation w message citation rect :
      message ∈ messages (state w) ->
      citation ∈ buttons message ->
      step w (PopupClick (ClickCitation citation rect))
           {| state := with_popup (state w) (handleCitationClick citation rect);
              in_flight := in_flight w |}
  | step_close w popup :
      citationPopup (state w) = Some popup ->
      step w (PopupClick ClickClose)
           {| state := with_popup (state w) closeCitationPopup;
              in_flight := in_flight w |}
  | step_scrim w popup :
      citationPopup (state w) = Some popup ->
      step w (PopupClick ClickScrim)
           {| state := with_popup (state w) closeCitationPopup;
              in_flight := in_flight w |}.

(** The worlds the page can be in, from its mounting on. *)
Inductive reachable : World -> Prop :=
  | reachable_initial audioContext :
      reachable {| state := initial audioContext; in_flight := 0 |}
  | reachable_step w event w' :
      reachable w -> step w event w' -> reachable w'.

End Steps.
End Home.

(** * The response body on its way to the page *)

Module Wire.
Import JS.

(** A number through [JSON.stringify] and [response.json()]: NaN and the
    infinities are written as [null], minus zero as [0], and any other
    number is read back as it was. *)
Definition json_number (n : number) : value :=
  match n with
  | S754_nan | S754_infinity _ => VNull
  | S754_zero _ => VNumber (S754_zero false)
  | S754_finite _ _ _ => VNumber n
  end.

(** A source of the endpoint as the page reads it; the page has no use
    for [index]. *)
Definition received_source (source : Route.ApiSource.t) : Page.ApiSource.t :=
  {| Page.ApiSource.id := Some (Route.ApiSource.id source);
     Page.ApiSource.page :=
       match Route.ApiSource.page source with
       | Some page => json_number page
       | None => VNull
       end;
     Page.ApiSource.content := Some (Route.ApiSource.content source);
     Page.ApiSource.similarity := json_number (Route.ApiSource.similarity source) |}.

(** The body of a response as the page reads it: an error body has no
    [answer] and no [sources]. *)
Definition received (body : Route.Body) : Home.ResponseData :=
  match body with
  | Route.ErrorBody _ => Home.Data VUndefined Home.SourcesMissing
  | Route.AnswerBody answer sources =>
      Home.Data (VString answer) (Home.SourcesArray (map received_source sources))
  end.

(** The request of the page as the endpoint parses it. *)
Definition request_of (body : value) : Route.NextRequest :=
  {| Route.json := inr body |}.

End Wire.

(** * Properties *)

Import JS Marker.

(** ** Strings and arrays *)

Lemma string_app_cons (x : ascii) (a b : string) :
  String x a +:+ b = String x (a +:+ b).
Proof. reflexivity. Qed.

Lemma string_app_nil_l (a : string) : "" +:+ a = a.
Proof. reflexivity. Qed.

Lemma string_app_assoc (a b c : string) : (a +:+ b) +:+ c = a +:+ (b +:+ c).
Proof.
  induction a as [|x a IH]; [reflexivity|].
  rewrite !string_app_cons. now rewrite IH.
Qed.

Lemma string_app_nil_r (a : string) : a +:+ "" = a.
Proof.
  induction a as [|x a IH]; [reflexivity|].
  rewrite string_app_cons. now rewrite IH.
Qed.

Lemma string_length_app (a b : string) :
  String.length (a +:+ b) = (String.length a + String.length b)%nat.
Proof.
  induction a as [|c a IH]; [reflexivity|].
  rewrite string_app_cons. simpl. now rewrite IH.
Qed.

Lemma is_empty_false (s : string) : s <> "" -> is_empty s = false.
Proof. destruct s; simpl; congruence. Qed.

Lemma as_number_not_number v : typeof v <> "number" -> as_number v = None.
Proof. destruct v; simpl; try reflexivity. intros H; now destruct H. Qed.

Create Rewrite HintDb str.
#[local] Hint Rewrite string_app_assoc string_app_nil_r string_app_nil_l : str.

(** [join] is the usual concatenation with a separator. *)
Lemma Array_join_from (sep : string) (parts : list string) (k : nat) (R : string) :
  snd (fold_left
         (fun '(k, R) part => (S k, (if k is O then R else R +:+ sep) +:+ part))
         parts (S k, R))
  = R +:+ String.concat "" (map (fun part => sep +:+ part) parts).
Proof.
  revert k R; induction parts as [|x parts IH]; intros k R; simpl.
  - now autorewrite with str.
  - rewrite IH. destruct parts as [|y parts]; simpl; now autorewrite with str.
Qed.

Lemma concat_sep_cons (sep x : string) (parts : list string) :
  String.concat sep (x :: parts)
  = x +:+ String.concat "" (map (fun part => sep +:+ part) parts).
Proof.
  revert x; induction parts as [|y parts IH]; intros x.
  - simpl. now autorewrite with str.
  - change (String.concat sep (x :: y :: parts))
      with (x +:+ sep +:+ String.concat sep (y :: parts)).
    rewrite IH. simpl. destruct parts as [|z parts]; simpl; now autorewrite with str.
Qed.

Lemma Array_join_concat (sep : string) (parts : list string) :
  Array_join sep parts = String.concat sep parts.
Proof.
  destruct parts as [|x parts]; [reflexivity|].
  unfold Array_join. simpl fold_left.
  rewrite Array_join_from, concat_sep_cons. reflexivity.
Qed.

(** ** Source normalization and context assembly *)

(** The [page] a passage carries in its metadata, [undefined] when the
    metadata or the key is missing. *)
Definition passage_page (c : Route.RetrievedChunk.t) : value :=
  optional_get (Route.RetrievedChunk.metadata c) "page".

(** Whether a value is a finite number. *)
Definition finite_number (v : value) : bool :=
  match v with
  | VNumber n => Number_isFinite n
  | _ => false
  end.

(** A passage whose similarity is NaN. *)
Definition nan_passage : Route.RetrievedChunk.t :=
  {| Route.RetrievedChunk.content := "Protein is a macronutrient.";
     Route.RetrievedChunk.similarity := VNumber S754_nan;
     Route.RetrievedChunk.metadata := VObject {[ "page" := VNumber (Number_of_Z 12) ]};
     Route.RetrievedChunk.chunk_index := VNumber (Number_of_Z 0) |}.

(** C1, as stated, fails: a similarity that is of type number but not
    finite (here NaN) is not coerced to 0; the normalized source carries
    it unchanged. *)
Lemma processedSources_keeps_nan :
  finite_number (Route.RetrievedChunk.similarity nan_passage) = false /\
  exists source,
    Route.processedSources (Some [nan_passage]) = [source] /\
    Route.ApiSource.similarity source = S754_nan /\
    Route.ApiSource.similarity source <> Number_of_Z 0.
Proof.
  split; [reflexivity|]. eexists; split; [reflexivity|].
  split; [reflexivity|]. vm_compute. discriminate.
Qed.

(** C1, amended: source normalization returns one source per passage in
    the same order; the source at position [i] has [index = i + 1], the
    id ["source-" + i] and the passage's content; its page is the
    passage's page when that is of type number and [null] otherwise; its
    similarity is the passage's similarity when that is of type number
    (NaN and the infinities included) and 0 otherwise. *)
Theorem processedSources_spec (chunks : option (list Route.RetrievedChunk.t)) :
  let passages := default [] chunks in
  let sources := Route.processedSources chunks in
  length sources = length passages /\
  forall (i : nat) (c : Route.RetrievedChunk.t),
    passages !! i = Some c ->
    exists source,
      sources !! i = Some source /\
      Route.ApiSource.index source = (i + 1)%nat /\
      Route.ApiSource.id source = "source-" +:+ pretty i /\
      Route.ApiSource.content source = Route.RetrievedChunk.content c /\
      (forall n, passage_page c = VNumber n ->
                 Route.ApiSource.page source = Some n) /\
      (typeof (passage_page c) <> "number" ->
       Route.ApiSource.page source = None) /\
      (forall n, Route.RetrievedChunk.similarity c = VNumber n ->
                 Route.ApiSource.similarity source = n) /\
      (typeof (Route.RetrievedChunk.similarity c) <> "number" ->
       Route.ApiSource.similarity source = Number_of_Z 0).
Proof.
  intros passages sources. split.
  - unfold sources, Route.processedSources. apply length_imap.
  - intros i c Hc. unfold sources, Route.processedSources.
    fold passages. rewrite list_lookup_imap, Hc. simpl.
    eexists; split; [reflexivity|]. simpl. unfold passage_page.
    repeat split.
    + intros n ->. reflexivity.
    + intros H. now apply as_number_not_number.
    + intros n ->. reflexivity.
    + intros H. now rewrite as_number_not_number.
Qed.

(** Three passages from pages 12, 45 and one without page metadata. *)
Definition passage (content : string) (similarity : value) (metadata : value)
  : Route.RetrievedChunk.t :=
  {| Route.RetrievedChunk.content := content;
     Route.RetrievedChunk.similarity := similarity;
     Route.RetrievedChunk.metadata := metadata;
     Route.RetrievedChunk.chunk_index := VUndefined |}.

Definition three_passages : list Route.RetrievedChunk.t :=
  [ passage "Carbohydrates" (VNumber (Number_of_Z 1))
            (VObject {[ "page" := VNumber (Number_of_Z 12) ]});
    passage "Fats" (VString "0.8")
            (VObject {[ "page" := VNumber (Number_of_Z 45) ]});
    passage "Proteins" VNull VUndefined ].

Lemma processedSources_spec_witness :
  exists source,
    Route.processedSources (Some three_passages) !! 1%nat = Some source /\
    Route.ApiSource.index source = 2%nat /\
    Route.ApiSource.id source = "source-1" /\
    Route.ApiSource.page source = Some (Number_of_Z 45) /\
    Route.ApiSource.similarity source = Number_of_Z 0.
Proof.
  destruct (processedSources_spec (Some three_passages)) as [_ H].
  destruct (H 1%nat (passage "Fats" (VString "0.8")
                       (VObject {[ "page" := VNumber (Number_of_Z 45) ]})) eq_refl)
    as (source & Hs & Hindex & Hid & _ & Hpage & _ & _ & Hsim).
  exists source. split; [exact Hs|]. split; [exact Hindex|]. split; [exact Hid|].
  split; [apply Hpage; reflexivity | apply Hsim; vm_compute; discriminate].
Defined.

(** C5: the context block is the entries joined by a blank line; the
    entry of the passage at position [i] is ["[i+1] (Page P) content"],
    where [P] prints the passage's page when it is of type number and is
    ["?"] when the page is absent or not a number. *)
Theorem context_spec (host : Host) (chunks : option (list Route.RetrievedChunk.t)) :
  let passages := default [] chunks in
  exists entries : list string,
    Route.context host chunks = String.concat (LF +:+ LF) entries /\
    length entries = length passages /\
    forall (i : nat) (c : Route.RetrievedChunk.t),
      passages !! i = Some c ->
      exists P : string,
        entries !! i
        = Some ("[" +:+ pretty (i + 1)%nat +:+ "] (Page " +:+ P +:+ ") "
                    +:+ Route.RetrievedChunk.content c) /\
        (forall n, passage_page c = VNumber n -> P = Number_toString host n) /\
        (typeof (passage_page c) <> "number" -> P = "?").
Proof.
  intros passages.
  exists (imap (Route.context_entry host) passages). split; [|split].
  - unfold Route.context. apply Array_join_concat.
  - apply length_imap.
  - intros i c Hc. exists (Route.pageNum host c). split; [|split].
    + rewrite list_lookup_imap, Hc. reflexivity.
    + unfold passage_page, Route.pageNum. intros n ->. reflexivity.
    + unfold passage_page, Route.pageNum. intros H.
      now rewrite as_number_not_number.
Qed.

(** A host whose digits for numbers that are not safe integers are
    never asked for in the examples. *)
Definition example_host : Host :=
  {| host_digits := fun _ => "";
     host_type_error := fun site => "TypeError at " +:+ site |}.

Lemma context_spec_witness :
  Route.context example_host (Some three_passages)
  = "[1] (Page 12) Carbohydrates" +:+ LF +:+ LF +:+
    "[2] (Page 45) Fats" +:+ LF +:+ LF +:+
    "[3] (Page ?) Proteins".
Proof.
  destruct (context_spec example_host (Some three_passages))
    as (entries & Hjoin & Hlen & Hentry).
  destruct entries as [|e1 [|e2 [|e3 [|e4 entries]]]]; try discriminate Hlen.
  destruct (Hentry 0%nat _ eq_refl) as (P1 & H1 & H1n & _).
  destruct (Hentry 1%nat _ eq_refl) as (P2 & H2 & H2n & _).
  destruct (Hentry 2%nat _ eq_refl) as (P3 & H3 & _ & H3q).
  rewrite Hjoin.
  injection H1 as ->. injection H2 as ->. injection H3 as ->.
  rewrite (H1n _ eq_refl), (H2n _ eq_refl), H3q by (vm_compute; discriminate).
  reflexivity.
Defined.

(** ** The endpoint *)

Fixpoint whitespace_only (s : string) : bool :=
  match s with
  | EmptyString => true
  | String c t => is_whitespace c && whitespace_only t
  end.

Lemma trimStart_whitespace_only (s : string) :
  trimStart s = "" <-> whitespace_only s = true.
Proof.
  induction s as [|c t IH]; simpl; [tauto|].
  destruct (is_whitespace c); simpl; [exact IH|].
  split; discriminate.
Qed.

Lemma trimStart_head (s : string) (c : ascii) (t : string) :
  trimStart s = String c t -> is_whitespace c = false.
Proof.
  induction s as [|x s IH]; simpl; [discriminate|].
  destruct (is_whitespace x) eqn:Hx; [exact IH|].
  now intros [= <- <-].
Qed.

Lemma trim_whitespace_only (s : string) :
  trim s = "" <-> whitespace_only s = true.
Proof.
  rewrite <- trimStart_whitespace_only. unfold trim.
  destruct (trimStart s) as [|c t] eqn:E; [simpl; tauto|].
  apply trimStart_head in E. simpl. rewrite E. simpl.
  split; discriminate.
Qed.

Lemma context_entry_nonempty host i c : exists x t, Route.context_entry host i c = String x t.
Proof. unfold Route.context_entry. eexists _, _. reflexivity. Qed.

Lemma context_empty host chunks :
  Route.context host chunks = "" <-> default [] chunks = [].
Proof.
  unfold Route.context. rewrite Array_join_concat.
  destruct (default [] chunks) as [|c cs]; [simpl; tauto|].
  rewrite imap_cons, concat_sep_cons.
  destruct (context_entry_nonempty host 0 c) as (x & t & ->).
  split; discriminate.
Qed.

Section Endpoint.
Context (host : Host) (services : Route.Services).

Definition embedding_model : string := "text-embedding-3-small".

(** The request carries a message that is not empty after trimming. *)
Inductive Accepted (req : Route.NextRequest) : string -> Prop :=
  | accepted_intro body text :
      Route.json req = inr body ->
      toString_method host (nullish (optional_get body "message") (VString "")) = inr text ->
      trim text <> "" ->
      Accepted req (trim text).

(** The request reaches retrieval: its message is accepted and embedded,
    and the vector store is queried with the embedding. *)
Inductive Retrieves (req : Route.NextRequest)
  : string -> list number -> Route.RpcResult -> Prop :=
  | retrieves_intro message queryEmb others :
      Accepted req message ->
      Route.embeddings_create services embedding_model message = inr (queryEmb :: others) ->
      Retrieves req message queryEmb
        (Route.supabase_rpc services "match_documents" queryEmb 8
                            "human-nutrition-text.pdf").

Definition is_generation (ev : Route.event) : bool :=
  match ev with
  | Route.ChatCompletionsCreate _ _ _ _ => true
  | _ => false
  end.

Definition is_service_call (ev : Route.event) : bool :=
  match ev with
  | Route.ConsoleError _ _ => false
  | _ => true
  end.

(** Unfolds the handler down to the calls it makes. *)
Ltac run_handler :=
  unfold Route.handle, Route.run, Route.POST, Route.catch_block, Route.try_catch,
    Route.bind, Route.lift, Route.await, Route.embedQuery, Route.bind, Route.lift,
    Route.await, Route.emit, Route.ret, Route.throw.

(** C6: a request whose message is empty or only white space is
    answered with status 400 and an error body, and the handler makes no
    call at all: no embedding, no retrieval, no generation. *)
Theorem POST_empty_message req body text :
  Route.json req = inr body ->
  toString_method host (nullish (optional_get body "message") (VString "")) = inr text ->
  whitespace_only text = true ->
  Route.handle host services req
  = (inr (Route.json_response 400 (Route.ErrorBody "Empty query")), []).
Proof.
  intros Hbody Htext Hws. apply trim_whitespace_only in Hws.
  run_handler. rewrite Hbody. simpl. rewrite Htext. rewrite Hws. reflexivity.
Qed.

(** C4: when retrieval succeeds with no passage, the answer is status
    200 with the fixed fallback answer and an empty source list, after
    the embedding and the retrieval call and nothing else: the
    completion is never asked for. *)
Theorem POST_no_passages req message queryEmb r :
  Retrieves req message queryEmb r ->
  Route.error r = None ->
  default [] (Route.data r) = [] ->
  exists calls,
    Route.handle host services req
    = (inr (Route.json_response 200 (Route.AnswerBody Route.fallback_answer [])), calls) /\
    calls = [Route.EmbeddingsCreate embedding_model message;
             Route.SupabaseRpc "match_documents" queryEmb 8 "human-nutrition-text.pdf"] /\
    Forall (fun ev => is_generation ev = false) calls.
Proof.
  intros Hr Herr Hdata. destruct Hr as [message queryEmb others Hm Hemb].
  destruct Hm as [body text Hbody Htext Hne].
  eexists. split; [|split; [reflexivity|]].
  - run_handler. rewrite Hbody. simpl. rewrite Htext.
    rewrite (is_empty_false _ Hne). simpl.
    fold embedding_model. rewrite Hemb. simpl. rewrite Herr.
    apply context_empty with (host := host) in Hdata. rewrite Hdata. reflexivity.
  - repeat constructor.
Qed.

(** X23: with passages retrieved and a completion received, the
    response carries the completion's text and the normalized sources of
    exactly those passages, after the three calls in order. *)
Lemma POST_answer req message queryEmb r choices :
  Retrieves req message queryEmb r ->
  Route.error r = None ->
  default [] (Route.data r) <> [] ->
  Route.chat_completions_create services "gpt-4o-mini" Route.temperature
    Route.system_prompt
    (Route.user_prompt message (Route.context host (Route.data r))) = inr choices ->
  Route.handle host services req
  = (inr (Route.json_response 200
            (Route.AnswerBody (Route.answer_of choices)
                              (Route.processedSources (Route.data r)))),
     [Route.EmbeddingsCreate embedding_model message;
      Route.SupabaseRpc "match_documents" queryEmb 8 "human-nutrition-text.pdf";
      Route.ChatCompletionsCreate "gpt-4o-mini" Route.temperature
        Route.system_prompt
        (Route.user_prompt message (Route.context host (Route.data r)))]).
Proof.
  intros Hr Herr Hdata Hchat.
  destruct Hr as [message queryEmb others [body text Hbody Htext Hne] Hemb].
  run_handler. rewrite Hbody. simpl. rewrite Htext.
  rewrite (is_empty_false _ Hne). simpl.
  fold embedding_model. rewrite Hemb. simpl. rewrite Herr.
  rewrite is_empty_false by (now rewrite context_empty).
  simpl. rewrite Hchat. reflexivity.
Qed.

End Endpoint.

(** *** Failures of a stage *)

Section Failures.
Context (host : Host) (clients : Route.Clients).

(** A failure of one of the three stages, with what it throws and the
    calls made up to it: the embedding call rejects or resolves to no
    embedding, the vector store reports an error, or the completion call
    rejects. *)
Inductive StageFailure (req : Route.NextRequest)
  : throwable -> list Route.event -> Prop :=
  | embedding_rejects message f :
      Accepted host req message ->
      Route.openai_embeddings_create clients embedding_model message = inl f ->
      StageFailure req f [Route.EmbeddingsCreate embedding_model message]
  | embedding_missing message :
      Accepted host req message ->
      Route.openai_embeddings_create clients embedding_model message = inr [] ->
      StageFailure req (throwable_of (TypeError host "resp.data[0].embedding"))
        [Route.EmbeddingsCreate embedding_model message]
  | retrieval_fails message queryEmb others f :
      Accepted host req message ->
      Route.openai_embeddings_create clients embedding_model message
      = inr (queryEmb :: others) ->
      Route.rpc_error (Route.supabase_rpc_call clients "match_documents" queryEmb 8
                         "human-nutrition-text.pdf") = Some f ->
      StageFailure req f
        [Route.EmbeddingsCreate embedding_model message;
         Route.SupabaseRpc "match_documents" queryEmb 8 "human-nutrition-text.pdf"]
  | generation_rejects message queryEmb others chunks f :
      Accepted host req message ->
      Route.openai_embeddings_create clients embedding_model message
      = inr (queryEmb :: others) ->
      Route.rpc_error (Route.supabase_rpc_call clients "match_documents" queryEmb 8
                         "human-nutrition-text.pdf") = None ->
      Route.rpc_data (Route.supabase_rpc_call clients "match_documents" queryEmb 8
                        "human-nutrition-text.pdf") = chunks ->
      default [] chunks <> [] ->
      Route.openai_chat_completions_create clients "gpt-4o-mini" Route.temperature
        Route.system_prompt
        (Route.user_prompt message (Route.context host chunks)) = inl f ->
      StageFailure req f
        [Route.EmbeddingsCreate embedding_model message;
         Route.SupabaseRpc "match_documents" queryEmb 8 "human-nutrition-text.pdf";
         Route.ChatCompletionsCreate "gpt-4o-mini" Route.temperature
           Route.system_prompt
           (Route.user_prompt message (Route.context host chunks))].

(** A failed stage hands what it throws to the [catch] block, and
    nothing else happens. *)
Lemma run_stage_failure req f calls :
  StageFailure req f calls ->
  Route.run host clients req = Route.catch_block host f calls.
Proof.
  intros Hfail.
  destruct Hfail as
    [ message f [body text Hbody Htext Hne] Hemb
    | message [body text Hbody Htext Hne] Hemb
    | message queryEmb others f [body text Hbody Htext Hne] Hemb Herr
    | message queryEmb others chunks f [body text Hbody Htext Hne] Hemb Herr
        Hchunks Hdata Hchat ].
  - unfold Route.run, Route.POST, Route.try_catch, Route.bind, Route.lift,
      Route.await, Route.embedQuery, Route.bind, Route.lift, Route.await,
      Route.emit, Route.ret, Route.throw.
    rewrite Hbody. simpl. rewrite Htext. rewrite (is_empty_false _ Hne). simpl.
    fold embedding_model. rewrite Hemb. reflexivity.
  - unfold Route.run, Route.POST, Route.try_catch, Route.bind, Route.lift,
      Route.await, Route.embedQuery, Route.bind, Route.lift, Route.await,
      Route.emit, Route.ret, Route.throw.
    rewrite Hbody. simpl. rewrite Htext. rewrite (is_empty_false _ Hne). simpl.
    fold embedding_model. rewrite Hemb. reflexivity.
  - unfold Route.run, Route.POST, Route.try_catch, Route.bind, Route.lift,
      Route.await, Route.embedQuery, Route.bind, Route.lift, Route.await,
      Route.emit, Route.ret, Route.throw.
    rewrite Hbody. simpl. rewrite Htext. rewrite (is_empty_false _ Hne). simpl.
    fold embedding_model. rewrite Hemb. simpl. rewrite Herr. reflexivity.
  - unfold Route.run, Route.POST, Route.try_catch, Route.bind, Route.lift,
      Route.await, Route.embedQuery, Route.bind, Route.lift, Route.await,
      Route.emit, Route.ret, Route.throw.
    rewrite Hbody. simpl. rewrite Htext. rewrite (is_empty_false _ Hne). simpl.
    fold embedding_model. rewrite Hemb. simpl. rewrite Herr, Hchunks.
    rewrite is_empty_false by (now rewrite context_empty).
    simpl. rewrite Hchat. reflexivity.
Qed.

(** What the [catch] block makes of an [Error] instance. *)
Lemma catch_block_error message calls :
  Route.catch_block host (IsError message) calls
  = (inr (Route.json_response 500
            (Route.ErrorBody (or_else message "Unknown error"))),
     (calls ++ [Route.ConsoleError "api/chat error:" message])%list).
Proof. reflexivity. Qed.

(** What the [catch] block makes of any other value: the response with
    the string of the value, or the failure to print it. *)
Lemma catch_block_value v calls :
  Route.catch_block host (NotError v) calls
  = match ToString host v with
    | inr message =>
        (inr (Route.json_response 500
                (Route.ErrorBody (or_else message "Unknown error"))),
         (calls ++ [Route.ConsoleError "api/chat error:" message])%list)
    | inl e => (inl (throwable_of e), calls)
    end.
Proof.
  unfold Route.catch_block, Route.bind, Route.lift, Route.error_message.
  destruct (ToString host v); reflexivity.
Qed.

Lemma stage_failure_calls req f calls :
  StageFailure req f calls -> Forall (fun ev => is_service_call ev = true) calls.
Proof. intros []; repeat constructor. Qed.


(** The vector store's failure is a plain object: the [catch] block
    prints it with [String], and the response and the log carry
    [[object Object]] whatever the object's [message] entry says. *)
Lemma POST_retrieval_error_object req (properties : gmap string value) calls :
  StageFailure req (NotError (VObject properties)) calls ->
  properties !! "toString" = None ->
  Route.run host clients req
  = (inr (Route.json_response 500 (Route.ErrorBody "[object Object]")),
     (calls ++ [Route.ConsoleError "api/chat error:" "[object Object]"])%list).
Proof.
  intros Hfail Hnone. rewrite (run_stage_failure req _ calls Hfail).
  rewrite catch_block_value. simpl. rewrite Hnone.
  rewrite bool_decide_eq_false_2 by (intros [? [=]]). reflexivity.
Qed.

(** A thrown value that cannot be printed leaves the [catch] block by a
    [TypeError]: the handler rejects, and logs no error. *)
Lemma POST_unprintable_failure req v e calls :
  StageFailure req (NotError v) calls ->
  ToString host v = inl e ->
  Route.run host clients req = (inl (throwable_of e), calls).
Proof.
  intros Hfail Hprint. rewrite (run_stage_failure req _ calls Hfail).
  rewrite catch_block_value, Hprint. reflexivity.
Qed.

End Failures.

(** *** Examples of requests and services *)

Definition request_with (message : value) : Route.NextRequest :=
  {| Route.json := inr (VObject {[ "message" := message ]}) |}.

Definition services_with (embeddings : thrown + list (list number))
    (result : Route.RpcResult) (completion : thrown + list Route.Choice)
  : Route.Services :=
  {| Route.embeddings_create := fun _ _ => embeddings;
     Route.supabase_rpc := fun _ _ _ _ => result;
     Route.chat_completions_create := fun _ _ _ _ => completion |}.

Definition example_embedding : list number := [Number_of_Z 1; Number_of_Z 0].

Definition retrieved (passages : list Route.RetrievedChunk.t) : Route.RpcResult :=
  {| Route.data := Some passages; Route.error := None |}.

Definition completion_with (answer : string) : thrown + list Route.Choice :=
  inr [ {| Route.message := Some {| Route.message_content := Some answer |} |} ].

Definition question : string := "What are macronutrients?".

Lemma question_accepted :
  Accepted example_host (request_with (VString (" " +:+ question +:+ LF))) question.
Proof.
  apply (accepted_intro example_host _
           (VObject {[ "message" := VString (" " +:+ question +:+ LF) ]})
           (" " +:+ question +:+ LF)).
  - reflexivity.
  - reflexivity.
  - vm_compute. discriminate.
Defined.

(** A question answered from three passages: the sources keep the
    retrieval order, are numbered from 1, and the passage whose
    similarity is a string gets similarity 0. *)
Example POST_macronutrients :
  fst (Route.handle example_host
         (services_with (inr [example_embedding]) (retrieved three_passages)
            (completion_with "Macronutrients include carbs and fats [1][2]."))
         (request_with (VString question)))
  = inr (Route.json_response 200
           (Route.AnswerBody "Macronutrients include carbs and fats [1][2]."
              [ {| Route.ApiSource.id := "source-0";
                   Route.ApiSource.page := Some (Number_of_Z 12);
                   Route.ApiSource.content := "Carbohydrates";
                   Route.ApiSource.similarity := Number_of_Z 1;
                   Route.ApiSource.index := 1 |};
                {| Route.ApiSource.id := "source-1";
                   Route.ApiSource.page := Some (Number_of_Z 45);
                   Route.ApiSource.content := "Fats";
                   Route.ApiSource.similarity := Number_of_Z 0;
                   Route.ApiSource.index := 2 |};
                {| Route.ApiSource.id := "source-2";
                   Route.ApiSource.page := None;
                   Route.ApiSource.content := "Proteins";
                   Route.ApiSource.similarity := Number_of_Z 0;
                   Route.ApiSource.index := 3 |} ])).
Proof. vm_compute. reflexivity. Qed.

Lemma POST_empty_message_witness :
  Route.handle example_host
    (services_with (inr [example_embedding]) (retrieved three_passages)
                   (completion_with "Carbohydrates [1]."))
    (request_with (VString ("  " +:+ LF +:+ " ")))
  = (inr (Route.json_response 400 (Route.ErrorBody "Empty query")), []).
Proof.
  apply (POST_empty_message example_host _ _
           (VObject {[ "message" := VString ("  " +:+ LF +:+ " ") ]})
           ("  " +:+ LF +:+ " ")); reflexivity.
Defined.

Lemma POST_no_passages_witness :
  exists calls,
    Route.handle example_host
      (services_with (inr [example_embedding]) (retrieved [])
                     (completion_with "Carbohydrates [1]."))
      (request_with (VString (" " +:+ question +:+ LF)))
    = (inr (Route.json_response 200 (Route.AnswerBody Route.fallback_answer [])),
       calls) /\
    calls = [Route.EmbeddingsCreate embedding_model question;
             Route.SupabaseRpc "match_documents" example_embedding 8
                               "human-nutrition-text.pdf"] /\
    Forall (fun ev => is_generation ev = false) calls.
Proof.
  apply (POST_no_passages example_host _ _ question example_embedding (retrieved [])).
  - apply (retrieves_intro example_host
             (services_with (inr [example_embedding]) (retrieved [])
                            (completion_with "Carbohydrates [1]."))
             _ question example_embedding []).
    + apply question_accepted.
    + reflexivity.
  - reflexivity.
  - reflexivity.
Defined.

Definition clients_with (embeddings : throwable + list (list number))
    (result : Route.RpcResponse) (completion : throwable + list Route.Choice)
  : Route.Clients :=
  {| Route.openai_embeddings_create := fun _ _ => embeddings;
     Route.supabase_rpc_call := fun _ _ _ _ => result;
     Route.openai_chat_completions_create := fun _ _ _ _ => completion |}.

Definition rows (passages : list Route.RetrievedChunk.t) : Route.RpcResponse :=
  {| Route.rpc_data := Some passages; Route.rpc_error := None |}.




(** The failure the vector store reports for a function it does not
    know, as its client hands it over. *)
Definition unknown_function : value :=
  VObject {[ "code" := VString "PGRST202";
             "message" := VString "Could not find the function match_documents" ]}.

(** A failed retrieval with the client as it is: the response says
    [[object Object]], and the store's message does not reach it. *)
Example POST_retrieval_error_object_example :
  Route.run example_host
    (clients_with (inr [example_embedding])
       {| Route.rpc_data := None; Route.rpc_error := Some (NotError unknown_function) |}
       (Route.widen (completion_with "Carbohydrates [1].")))
    (request_with (VString question))
  = (inr (Route.json_response 500 (Route.ErrorBody "[object Object]")),
     [Route.EmbeddingsCreate embedding_model question;
      Route.SupabaseRpc "match_documents" example_embedding 8
                        "human-nutrition-text.pdf";
      Route.ConsoleError "api/chat error:" "[object Object]"]).
Proof. vm_compute. reflexivity. Qed.

(** A failure that cannot be printed: the handler rejects with the
    [TypeError] of the conversion. *)
Example POST_unprintable_failure_example :
  Route.run example_host
    (clients_with (inl (NotError (VObject {[ "toString" := VNull ]})))
       (rows three_passages)
       (Route.widen (completion_with "Carbohydrates [1].")))
    (request_with (VString question))
  = (inl (throwable_of (TypeError example_host "ToPrimitive")),
     [Route.EmbeddingsCreate embedding_model question]).
Proof. vm_compute. reflexivity. Qed.

(** ** The marker scan *)

Fixpoint all_digits (s : string) : bool :=
  match s with
  | EmptyString => true
  | String c t => is_digit c && all_digits t
  end.

Lemma digits_span_digits (s ds rest : string) :
  digits_span s = (ds, rest) -> all_digits ds = true.
Proof.
  revert ds rest; induction s as [|c t IH]; intros ds rest; simpl.
  - now intros [= <- <-].
  - destruct (is_digit c) eqn:Hc.
    + destruct (digits_span t) as [ds' rest'] eqn:E.
      intros [= <- <-]. simpl. rewrite Hc. simpl. eapply IH. reflexivity.
    + now intros [= <- <-].
Qed.

Lemma match_at_digits (s ds rest : string) :
  match_at s = Some (ds, rest) -> all_digits ds = true.
Proof.
  unfold match_at. destruct s as [|c t]; [discriminate|].
  destruct (digits_span t) as [ds' r] eqn:E.
  apply digits_span_digits in E.
  repeat case_match; try discriminate. 
  intros [= <- <-]. assumption.
Qed.

Lemma matches_digits (s : string) : Forall (fun ds => all_digits ds = true) (matches s).
Proof.
  funelim (matches s).
  - constructor.
  - constructor; [|assumption]. eapply match_at_digits; eassumption.
  - assumption.
Qed.

Lemma is_digit_not_bracket (c : ascii) :
  is_digit c = true -> c <> "["%char /\ c <> "]"%char.
Proof. intros H; split; intros ->; discriminate H. Qed.

Lemma strip_brackets_digits (ds suffix : string) :
  all_digits ds = true ->
  strip_brackets (ds +:+ suffix) = ds +:+ strip_brackets suffix.
Proof.
  induction ds as [|c t IH]; simpl; [reflexivity|].
  intros [Hc Ht]%andb_prop. rewrite string_app_cons. simpl.
  destruct (is_digit_not_bracket c Hc) as [H1 H2].
  rewrite !bool_decide_eq_false_2 by assumption. simpl.
  now rewrite IH.
Qed.

Lemma strip_brackets_marker (ds : string) :
  all_digits ds = true -> strip_brackets (marker ds) = ds.
Proof.
  intros H. unfold marker. rewrite string_app_cons, string_app_nil_l.
  simpl. rewrite strip_brackets_digits by assumption.
  simpl. apply string_app_nil_r.
Qed.

(** The numbers of the markers of a text, in the order of the text. *)
Definition marker_numbers (content : string) : list Z :=
  map parseInt (matches content).

Lemma parseInt_markers (l : list string) :
  Forall (fun ds => all_digits ds = true) l ->
  map (fun m => parseInt (strip_brackets m)) (map marker l) = map parseInt l.
Proof.
  induction 1 as [|x l Hx Hl IH]; [reflexivity|].
  cbn [map]. rewrite strip_brackets_marker by assumption. f_equal. exact IH.
Qed.

Lemma match_global_numbers (content : string) (ms : list string) :
  String_match_global content = Some ms ->
  map (fun m => parseInt (strip_brackets m)) ms = marker_numbers content.
Proof.
  unfold String_match_global, marker_numbers.
  pose proof (matches_digits content) as Hd.
  destruct (matches content) as [|d ds]; [discriminate|].
  intros [= <-]. exact (parseInt_markers (d :: ds) Hd).
Qed.

Lemma match_global_none (content : string) :
  String_match_global content = None -> marker_numbers content = [].
Proof.
  unfold String_match_global, marker_numbers.
  destruct (matches content); [reflexivity|discriminate].
Qed.

Lemma digits_span_app (ds rest : string) :
  all_digits ds = true ->
  (forall c t, rest = String c t -> is_digit c = false) ->
  digits_span (ds +:+ rest) = (ds, rest).
Proof.
  intros Hds Hrest. induction ds as [|c t IH].
  - rewrite string_app_nil_l. destruct rest as [|c t]; [reflexivity|].
    simpl. now rewrite (Hrest c t eq_refl).
  - simpl in Hds. apply andb_prop in Hds as [Hc Ht].
    rewrite string_app_cons. simpl. rewrite Hc, (IH Ht). reflexivity.
Qed.

Lemma match_at_marker (ds rest : string) :
  all_digits ds = true -> ds <> "" ->
  match_at (marker ds +:+ rest) = Some (ds, rest).
Proof.
  intros Hds Hne. unfold marker.
  rewrite !string_app_assoc, string_app_cons, string_app_nil_l.
  unfold match_at. rewrite digits_span_app; [|assumption|].
  - destruct ds; [congruence|]. reflexivity.
  - intros c t. rewrite string_app_cons. now intros [= <- _].
Qed.

Lemma match_at_nonempty (s ds rest : string) :
  match_at s = Some (ds, rest) -> ds <> "".
Proof.
  unfold match_at. repeat case_match; try discriminate.
  intros [= <- <-]. discriminate.
Qed.

Lemma match_at_text (s ds rest : string) :
  match_at s = Some (ds, rest) -> s = marker ds +:+ rest.
Proof.
  unfold match_at. destruct s as [|c t]; [discriminate|].
  destruct (digits_span t) as [ds' r] eqn:E.
  assert (t = ds' +:+ r) as Ht.
  { clear -E. revert ds' r E. induction t as [|x t IH]; intros ds' r; simpl.
    - now intros [= <- <-].
    - destruct (is_digit x).
      + destruct (digits_span t) as [a b]. intros [= <- <-].
        rewrite string_app_cons. f_equal. now apply IH.
      + now intros [= <- <-]. }
  repeat case_match; try discriminate. intros [= <- <-]. subst.
  unfold marker. now rewrite !string_app_assoc.
Qed.

Lemma String_match_marker (ds : string) :
  all_digits ds = true -> ds <> "" -> String_match (marker ds) = Some ds.
Proof.
  intros Hds Hne. pose proof (match_at_marker ds "" Hds Hne) as H.
  rewrite string_app_nil_r in H.
  unfold marker in *. rewrite string_app_cons, string_app_nil_l in *.
  simpl. simpl in H. now rewrite H.
Qed.


Lemma String_split_nonempty (s : string) : String_split s <> [].
Proof. funelim (String_split s); simp String_split; discriminate. Qed.


Lemma String_split_marker (s ds rest : string) :
  match_at s = Some (ds, rest) ->
  String_split s = "" :: marker ds :: String_split rest.
Proof.
  intros H. funelim (String_split s); simp String_split; try congruence.
  discriminate.
Qed.



Lemma String_split_char (c : ascii) (t : string) :
  match_at (String c t) = None ->
  exists text parts,
    String_split t = text :: parts /\
    String_split (String c t) = String c text :: parts.
Proof.
  intros H. funelim (String_split (String c t)); simp String_split;
    try congruence;
    match goal with E : String _ _ = String _ _ |- _ => injection E as <- <- end.
  - now destruct (String_split_nonempty t).
  - eexists _, _. split; [eassumption|reflexivity].
Qed.

Lemma matches_marker (s ds rest : string) :
  match_at s = Some (ds, rest) -> matches s = ds :: matches rest.
Proof.
  intros H. funelim (matches s); simp matches; try congruence.
  discriminate.
Qed.

Lemma matches_char (c : ascii) (t : string) :
  match_at (String c t) = None -> matches (String c t) = matches t.
Proof.
  intros H. funelim (matches (String c t)); simp matches; try congruence;
    match goal with E : String _ _ = String _ _ |- _ => injection E as <- <- end.
Qed.

(** The parts at the odd and at the even positions of a split. *)
Fixpoint odd_parts (parts : list string) : list string :=
  match parts with
  | _ :: part :: rest => part :: odd_parts rest
  | _ => []
  end.

Fixpoint even_parts (parts : list string) : list string :=
  match parts with
  | part :: rest =>
      part :: match rest with
              | _ :: rest' => even_parts rest'
              | [] => []
              end
  | [] => []
  end.

Lemma string_length_induction (P : string -> Prop) :
  (forall s, (forall s', (String.length s' < String.length s)%nat -> P s') -> P s) ->
  forall s, P s.
Proof.
  intros step s. remember (String.length s) as n eqn:Hn.
  revert s Hn. induction n as [n IH] using lt_wf_ind.
  intros s ->. apply step. intros s' Hlt. now apply (IH _ Hlt).
Qed.

Lemma concat_cons (x : string) (parts : list string) :
  String.concat "" (x :: parts) = x +:+ String.concat "" parts.
Proof.
  destruct parts; cbn [String.concat]; now autorewrite with str.
Qed.

(** Splitting loses nothing: the parts, put together, are the text. *)
Lemma String_split_concat (s : string) : String.concat "" (String_split s) = s.
Proof.
  induction s as [s IH] using string_length_induction.
  destruct s as [|c t]; [reflexivity|].
  destruct (match_at (String c t)) as [[ds rest]|] eqn:E.
  - rewrite (String_split_marker _ _ _ E), !concat_cons.
    rewrite (IH rest (match_at_shorter _ _ _ E)), string_app_nil_l.
    symmetry. now apply match_at_text.
  - destruct (String_split_char c t E) as (text & parts & Ht & ->).
    pose proof (IH t) as Hrest. rewrite Ht, concat_cons in Hrest.
    rewrite concat_cons, string_app_cons, Hrest; [reflexivity|simpl; lia].
Qed.

(** The parts at the odd positions are the markers, in order. *)
Lemma String_split_markers (s : string) :
  odd_parts (String_split s) = map marker (matches s).
Proof.
  induction s as [s IH] using string_length_induction.
  destruct s as [|c t]; [reflexivity|].
  destruct (match_at (String c t)) as [[ds rest]|] eqn:E.
  - rewrite (String_split_marker _ _ _ E), (matches_marker _ _ _ E).
    cbn [odd_parts map]. f_equal. apply IH. now apply match_at_shorter in E.
  - destruct (String_split_char c t E) as (text & parts & Ht & ->).
    rewrite (matches_char c t E), <- (IH t) by (simpl; lia).
    rewrite Ht. reflexivity.
Qed.

Lemma match_at_app (a b ds rest : string) :
  match_at a = Some (ds, rest) -> match_at (a +:+ b) = Some (ds, rest +:+ b).
Proof.
  intros H. rewrite (match_at_text _ _ _ H), string_app_assoc.
  apply match_at_marker.
  - eapply match_at_digits. exact H.
  - eapply match_at_nonempty. exact H.
Qed.

(** The parts at the even positions hold no marker. *)
Lemma String_split_texts (s : string) :
  Forall (fun part => String_match part = None) (even_parts (String_split s)).
Proof.
  induction s as [s IH] using string_length_induction.
  destruct s as [|c t]; [repeat constructor|].
  destruct (match_at (String c t)) as [[ds rest]|] eqn:E.
  - rewrite (String_split_marker _ _ _ E). cbn [even_parts].
    constructor; [reflexivity|]. apply IH. now apply match_at_shorter in E.
  - destruct (String_split_char c t E) as (text & parts & Ht & ->).
    pose proof (IH t) as Hrest. rewrite Ht in Hrest.
    assert (Hlt : (String.length t < String.length (String c t))%nat) by (simpl; lia).
    specialize (Hrest Hlt). cbn [even_parts] in *.
    apply Forall_cons in Hrest as [Htext Hparts].
    constructor; [|exact Hparts].
    cbn [String_match].
    destruct (match_at (String c text)) as [[ds rest]|] eqn:E'; [|exact Htext].
    exfalso. pose proof (String_split_concat t) as Hc. rewrite Ht in Hc.
    assert (exists b, t = text +:+ b) as [b Hb].
    { rewrite concat_cons in Hc. eexists. symmetry. exact Hc. }
    apply (match_at_app _ b) in E'. rewrite string_app_cons, <- Hb in E'.
    congruence.
Qed.

(** ** Sets in insertion order *)

Section FirstOccurrences.
Context {A : Type} `{EqDecision A}.

(** [a] occurs in [l] at position [p] and not before. *)
Definition first_at (l : list A) (p : nat) (a : A) : Prop :=
  l !! p = Some a /\ forall p' : nat, (p' < p)%nat -> l !! p' <> Some a.

(** [ns] lists the distinct elements of [l] in the order of their first
    occurrence in [l]. *)
Definition FirstOccurrences (l ns : list A) : Prop :=
  NoDup ns /\
  (forall a, a ∈ ns <-> a ∈ l) /\
  forall (i j : nat) (a b : A),
    ns !! i = Some a -> ns !! j = Some b -> (i < j)%nat ->
    exists p q : nat, first_at l p a /\ first_at l q b /\ (p < q)%nat.

Lemma Set_of_list_snoc (l : list A) (x : A) :
  Set_of_list (l ++ [x]) = Set_add (Set_of_list l) x.
Proof. unfold Set_of_list. now rewrite fold_left_app. Qed.

Lemma first_at_app (l : list A) (x : A) (p : nat) (a : A) :
  first_at l p a -> first_at (l ++ [x]) p a.
Proof.
  intros [Hp Hfirst]. split.
  - now apply lookup_app_l_Some.
  - intros p' Hlt H. apply (Hfirst p' Hlt).
    rewrite lookup_app_l in H; [exact H|].
    apply lookup_lt_Some in Hp. lia.
Qed.

Lemma first_at_exists (l : list A) (a : A) :
  a ∈ l -> exists p, first_at l p a.
Proof.
  induction l as [|x l IH] using rev_ind; [now intros ?%elem_of_nil|].
  destruct (decide (a ∈ l)) as [Hin|Hnin].
  - intros _. destruct (IH Hin) as [p Hp]. exists p. now apply first_at_app.
  - intros [?|Hx%list_elem_of_singleton]%elem_of_app; [contradiction|]. subst x.
    exists (length l). split.
    + now rewrite lookup_app_r, Nat.sub_diag by lia.
    + intros p' Hlt H. rewrite lookup_app_l in H by lia.
      apply Hnin. eapply list_elem_of_lookup_2. exact H.
Qed.

Lemma Set_of_list_first_occurrences (l : list A) :
  FirstOccurrences l (Set_of_list l).
Proof.
  induction l as [|x l (Hnodup & Helem & Horder)] using rev_ind.
  - split; [constructor|]. split; [reflexivity|].
    intros i j a b H. unfold Set_of_list in H. simpl in H.
    now rewrite lookup_nil in H.
  - rewrite Set_of_list_snoc. unfold Set_add. case_bool_decide as Hseen.
    + split; [exact Hnodup|]. split.
      * intros a. rewrite Helem, elem_of_app, list_elem_of_singleton.
        split; [tauto|]. intros [?| ->]; [assumption|]. now apply Helem.
      * intros i j a b Ha Hb Hlt.
        destruct (Horder i j a b Ha Hb Hlt) as (p & q & Hp & Hq & Hpq).
        exists p, q. split; [|split]; [now apply first_at_app..|exact Hpq].
    + split; [|split].
      * apply NoDup_app. split; [exact Hnodup|]. split.
        -- intros a Ha ->%list_elem_of_singleton. contradiction.
        -- apply NoDup_singleton.
      * intros a. rewrite !elem_of_app, Helem. reflexivity.
      * intros i j a b Ha Hb Hlt.
        assert (Hi : (i < length (Set_of_list l))%nat).
        { apply lookup_lt_Some in Hb. rewrite length_app in Hb. simpl in Hb. lia. }
        rewrite lookup_app_l in Ha by exact Hi.
        destruct (decide (j < length (Set_of_list l))%nat) as [Hj|Hj].
        -- rewrite lookup_app_l in Hb by exact Hj.
           destruct (Horder i j a b Ha Hb Hlt) as (p & q & Hp & Hq & Hpq).
           exists p, q. split; [|split]; [now apply first_at_app..|exact Hpq].
        -- rewrite lookup_app_r in Hb by lia.
           apply list_lookup_singleton_Some in Hb as [_ <-].
           assert (Hal : a ∈ l).
           { apply Helem. eapply list_elem_of_lookup_2. exact Ha. }
           destruct (first_at_exists l a Hal) as [p Hp].
           exists p, (length l). split; [now apply first_at_app|]. split.
           ++ split.
              ** now rewrite lookup_app_r, Nat.sub_diag by lia.
              ** intros p' Hp' H. rewrite lookup_app_l in H by lia.
                 apply Hseen, Helem. eapply list_elem_of_lookup_2. exact H.
           ++ destruct Hp as [Hp _]. now apply lookup_lt_Some in Hp.
Qed.

End FirstOccurrences.

(** ** Citation parsing *)

Lemma array_get_Some {A} (xs : list A) (i : Z) (x : A) :
  array_get xs i = Some x <-> (0 <= i)%Z /\ xs !! Z.to_nat i = Some x.
Proof.
  unfold array_get. destruct (Z.ltb_spec i 0); split.
  - discriminate.
  - intros [? _]. lia.
  - intros. split; [lia|assumption].
  - now intros [_ ?].
Qed.

Lemma array_get_in_range {A} (xs : list A) (i : Z) :
  is_Some (array_get xs i) <-> (0 <= i < Z.of_nat (length xs))%Z.
Proof.
  split.
  - intros [x [Hi Hx]%array_get_Some]. apply lookup_lt_Some in Hx. lia.
  - intros Hi. destruct (lookup_lt_is_Some_2 xs (Z.to_nat i)) as [x Hx]; [lia|].
    exists x. apply array_get_Some. split; [lia|exact Hx].
Qed.

(** What the parser pushes for the marker number [n]. *)
Definition resolve (sources : list Page.ApiSource.t) (n : Z) : option Page.Citation.t :=
  Page.citation_of (n - 1) <$> array_get sources (n - 1).

(** The [forEach] that pushes what resolves collects, in order, what
    resolves. *)
Lemma forEach_push (sources : list Page.ApiSource.t) (ns : list Z)
    (acc : list Page.Citation.t) :
  fold_left
    (fun citations citationNumber =>
       let sourceIndex := (citationNumber - 1)%Z in
       match array_get sources sourceIndex with
       | Some source => (citations ++ [Page.citation_of sourceIndex source])%list
       | None => citations
       end) ns acc
  = (acc ++ omap (resolve sources) ns)%list.
Proof.
  revert acc; induction ns as [|n ns IH]; intros acc; simpl.
  - now rewrite app_nil_r.
  - rewrite IH. unfold resolve at 2.
    destruct (array_get sources (n - 1)); simpl; [|reflexivity].
    now rewrite <- app_assoc.
Qed.

Lemma parseCitations_omap (content : string) (sources : option (list Page.ApiSource.t)) :
  Page.citations (Page.parseCitations content sources)
  = omap (resolve (default [] sources)) (Set_of_list (marker_numbers content)).
Proof.
  unfold Page.parseCitations. cbn [Page.citations].
  destruct (String_match_global content) as [ms|] eqn:Hms.
  - rewrite (match_global_numbers _ _ Hms).
    destruct (default [] sources) as [|src srcs] eqn:Hsrc.
    + simpl.
      induction (Set_of_list (marker_numbers content)) as [|n ns IH]; [reflexivity|].
      simpl. unfold resolve at 1, array_get. now destruct (n - 1 <? 0)%Z.
    + cbn [length Nat.ltb Nat.leb]. now rewrite forEach_push.
  - now rewrite (match_global_none _ Hms).
Qed.

(** The citation resolved for the marker number [n]: taken from the
    source at position [n - 1], with the source's page when that is of
    type number and [n] otherwise. *)
Definition Resolves (sources : list Page.ApiSource.t) (n : Z) (c : Page.Citation.t)
  : Prop :=
  exists source : Page.ApiSource.t,
    sources !! Z.to_nat (n - 1) = Some source /\
    Page.Citation.page c
    = match Page.ApiSource.page source with
      | VNumber page => page
      | _ => Number_of_Z n
      end /\
    Page.Citation.content c = default "" (Page.ApiSource.content source) /\
    Page.Citation.similarity c
    = match Page.ApiSource.similarity source with
      | VNumber similarity => similarity
      | _ => Number_of_Z 0
      end /\
    Page.Citation.id c
    = default ("citation-" +:+ pretty (n - 1)%Z) (Page.ApiSource.id source).

Definition in_range (sources : list Page.ApiSource.t) (n : Z) : Prop :=
  (1 <= n <= Z.of_nat (length sources))%Z.

#[local] Instance in_range_dec sources n : Decision (in_range sources n).
Proof. unfold in_range. apply _. Defined.

Lemma as_number_match {A} (v : value) (f : number -> A) (d : A) :
  match as_number v with Some n => f n | None => d end
  = match v with VNumber n => f n | _ => d end.
Proof. now destruct v. Qed.

Lemma resolve_in_range (sources : list Page.ApiSource.t) (n : Z) :
  in_range sources n ->
  exists c, resolve sources n = Some c /\ Resolves sources n c.
Proof.
  intros Hn.
  destruct (proj2 (array_get_in_range sources (n - 1))) as [source Hs].
  { unfold in_range in Hn. lia. }
  exists (Page.citation_of (n - 1) source). split.
  - unfold resolve. now rewrite Hs.
  - exists source. apply array_get_Some in Hs as [_ Hs].
    split; [exact Hs|]. unfold Page.citation_of. cbn.
    rewrite !as_number_match. replace (n - 1 + 1)%Z with n by lia.
    repeat split.
Qed.

Lemma resolve_out_of_range (sources : list Page.ApiSource.t) (n : Z) :
  ~ in_range sources n -> resolve sources n = None.
Proof.
  intros Hn. unfold resolve.
  destruct (array_get sources (n - 1)) eqn:E; [|reflexivity].
  exfalso. apply Hn. unfold in_range.
  assert (is_Some (array_get sources (n - 1))) as H%array_get_in_range by eauto.
  lia.
Qed.

Lemma resolve_filter (sources : list Page.ApiSource.t) (ns : list Z) :
  Forall2 (Resolves sources) (filter (in_range sources) ns)
          (omap (resolve sources) ns).
Proof.
  induction ns as [|n ns IH]; [constructor|].
  rewrite filter_cons. simpl. destruct (decide (in_range sources n)) as [Hn|Hn].
  - destruct (resolve_in_range sources n Hn) as (c & -> & Hc).
    now constructor.
  - now rewrite (resolve_out_of_range sources n Hn).
Qed.

(** C2: the parser's citation list follows the distinct marker numbers
    of the text in the order of their first occurrence; a number [n]
    contributes a citation exactly when [1 <= n <= sources.length], the
    citation is resolved from [sources[n-1]] with the source's page when
    that is a number and [n] otherwise, and a number out of range
    contributes nothing. *)
Theorem parseCitations_spec (content : string) (sources : option (list Page.ApiSource.t)) :
  let available := default [] sources in
  exists ns : list Z,
    FirstOccurrences (marker_numbers content) ns /\
    Forall2 (Resolves available) (filter (in_range available) ns)
            (Page.citations (Page.parseCitations content sources)).
Proof.
  intros available. exists (Set_of_list (marker_numbers content)).
  split; [apply Set_of_list_first_occurrences|].
  rewrite parseCitations_omap. apply resolve_filter.
Qed.

(** C10: the parser returns the answer text as it received it; markers
    stay in the text whether or not they resolve. *)
Theorem parseCitations_text (content : string) (sources : option (list Page.ApiSource.t)) :
  Page.text (Page.parseCitations content sources) = content.
Proof. reflexivity. Qed.

(** ** Regular-expression objects *)

Lemma skip_tail (i : nat) (s : string) (c : ascii) (t : string) :
  RegExp.skip i s = String c t -> RegExp.skip (S i) s = t.
Proof.
  revert s; induction i as [|i IH]; intros s; simpl.
  - now intros ->.
  - destruct s as [|x s]; [discriminate|]. apply IH.
Qed.

Lemma skip_prefix (i : nat) (s a b : string) :
  RegExp.skip i s = a +:+ b -> RegExp.skip (i + String.length a) s = b.
Proof.
  revert i; induction a as [|c a IH]; intros i.
  - rewrite string_app_nil_l, Nat.add_0_r. tauto.
  - rewrite string_app_cons. intros H%skip_tail. simpl.
    rewrite Nat.add_succ_r. now apply (IH (S i)).
Qed.

Lemma substring_skip (n m : nat) (s : string) :
  String.substring n m s = String.substring 0 m (RegExp.skip n s).
Proof.
  revert s; induction n as [|n IH]; intros s; [reflexivity|].
  destruct s as [|c t]; simpl; [now destruct m|]. apply IH.
Qed.

Lemma substring_prefix (a b : string) :
  String.substring 0 (String.length a) (a +:+ b) = a.
Proof.
  induction a as [|c a IH].
  - rewrite string_app_nil_l. now destruct b.
  - rewrite string_app_cons. simpl. f_equal. exact IH.
Qed.

Lemma skip_all (a b : string) : RegExp.skip (String.length a) (a +:+ b) = b.
Proof. apply (skip_prefix 0 (a +:+ b) a b). reflexivity. Qed.

(** The text between two parts of the input. *)
Lemma substring_middle (pre mid post : string) :
  String.substring (String.length pre) (String.length mid) (pre +:+ mid +:+ post) = mid.
Proof. rewrite substring_skip, skip_all. apply substring_prefix. Qed.

Lemma exec_all_unfold (p : RegExp.Pattern) (lastIndex : nat) (input : string) :
  RegExp.exec_all p lastIndex input
  = match RegExp.exec_at p lastIndex input with
    | Some m =>
        let next := if (RegExp.index m =? RegExp.end_index m)%nat
                    then S (RegExp.end_index m) else RegExp.end_index m in
        (m :: fst (RegExp.exec_all p next input), snd (RegExp.exec_all p next input))
    | None => ([], 0)
    end.
Proof.
  funelim (RegExp.exec_all p lastIndex input).
  - rewrite e. simpl. now destruct (RegExp.exec_all _ _ _).
  - now rewrite e.
Qed.

Lemma exec_at_search (p : RegExp.Pattern) (lastIndex : nat) (input : string) :
  lastIndex <= String.length input ->
  RegExp.exec_at p lastIndex input
  = RegExp.search p (String.length input) (RegExp.skip lastIndex input) lastIndex.
Proof.
  intros Hle. unfold RegExp.exec_at.
  now replace (String.length input <? lastIndex)%nat with false
    by (symmetry; apply Nat.ltb_ge; lia).
Qed.

(** A search from a position finds the leftmost marker from there on. *)
Lemma search_marker (input s : string) (i : nat) :
  RegExp.skip i input = s ->
  i <= String.length input ->
  match RegExp.search RegExp.CitationMarker (String.length input) s i with
  | None => matches s = []
  | Some m =>
      exists ds,
        matches s = ds :: matches (RegExp.skip (RegExp.end_index m) input) /\
        RegExp.matched input m = marker ds
  end.
Proof.
  revert i; induction s as [|c t IH]; intros i Hs Hi.
  - reflexivity.
  - cbn [RegExp.search RegExp.matcher].
    destruct (match_at (String c t)) as [[ds rest]|] eqn:E.
    + pose proof (match_at_text _ _ _ E) as Htext.
      assert (Hlen : String.length input - String.length rest
                     = i + String.length (marker ds)).
      { pose proof (RegExp.skip_length i input) as Hl. rewrite Hs, Htext in Hl.
        rewrite string_length_app in Hl. lia. }
      exists ds. unfold RegExp.matched. cbn [RegExp.index RegExp.end_index].
      rewrite Hlen. rewrite Htext in Hs. split.
      * rewrite (skip_prefix _ _ _ _ Hs). now apply matches_marker.
      * rewrite substring_skip, Hs.
        replace (i + String.length (marker ds) - i) with (String.length (marker ds)) by lia.
        apply substring_prefix.
    + assert (Hi' : S i <= String.length input).
      { pose proof (RegExp.skip_length i input) as Hl. rewrite Hs in Hl.
        simpl in Hl. lia. }
      specialize (IH (S i) (skip_tail _ _ _ _ Hs) Hi').
      rewrite (matches_char _ _ E). exact IH.
Qed.

(** The loop on the marker pattern returns the markers of the text from
    [lastIndex] on, and leaves [lastIndex] at 0. *)
Lemma exec_all_marker (lastIndex : nat) (input : string) :
  lastIndex <= String.length input ->
  map (RegExp.matched input) (fst (RegExp.exec_all RegExp.CitationMarker lastIndex input))
  = map marker (matches (RegExp.skip lastIndex input)) /\
  snd (RegExp.exec_all RegExp.CitationMarker lastIndex input) = 0.
Proof.
  remember RegExp.CitationMarker as p eqn:Hp.
  funelim (RegExp.exec_all p lastIndex input); intros Hle.
  - clear Heqcall H0. pose proof (RegExp.exec_at_bounds _ _ _ _ e) as (H1 & H2 & H3).
    replace (RegExp.index m =? RegExp.end_index m)%nat with false in *
      by (symmetry; apply Nat.eqb_neq; lia).
    specialize (H H3). destruct H as [Hfst Hsnd].
    destruct (RegExp.exec_all RegExp.CitationMarker (RegExp.end_index m) input)
      as [results last]. simpl in *. split; [|exact Hsnd].
    rewrite exec_at_search in e by exact Hle.
    pose proof (search_marker input _ lastIndex eq_refl Hle) as Hsearch.
    rewrite e in Hsearch. destruct Hsearch as (ds & Hms & Htext).
    rewrite Hms. cbn [map]. now rewrite Htext, Hfst.
  - clear Heqcall H. split; [|reflexivity]. simpl.
    rewrite exec_at_search in e by exact Hle.
    pose proof (search_marker input _ lastIndex eq_refl Hle) as Hsearch.
    rewrite e in Hsearch. now rewrite Hsearch.
Qed.

Definition is_bracket (c : ascii) : bool :=
  bool_decide (c = "["%char) || bool_decide (c = "]"%char).

(** The positions of the brackets of [s], which starts at position [i]. *)
Fixpoint bracket_positions (s : string) (i : nat) : list RegExp.MatchResult :=
  match s with
  | EmptyString => []
  | String c t =>
      if is_bracket c
      then {| RegExp.index := i; RegExp.end_index := S i |} :: bracket_positions t (S i)
      else bracket_positions t (S i)
  end.

Lemma search_bracket (input s : string) (i : nat) :
  RegExp.skip i input = s ->
  i <= String.length input ->
  match RegExp.search RegExp.Bracket (String.length input) s i with
  | None => bracket_positions s i = []
  | Some m =>
      bracket_positions s i
      = m :: bracket_positions (RegExp.skip (RegExp.end_index m) input)
                               (RegExp.end_index m)
  end.
Proof.
  revert i; induction s as [|c t IH]; intros i Hs Hi.
  - reflexivity.
  - assert (Hlen : String.length input - i = S (String.length t)).
    { pose proof (RegExp.skip_length i input) as Hl. now rewrite Hs in Hl. }
    cbn [RegExp.search RegExp.matcher bracket_positions]. fold (is_bracket c).
    destruct (is_bracket c).
    + cbn [RegExp.end_index].
      replace (String.length input - String.length t) with (S i) by lia.
      now rewrite (skip_tail _ _ _ _ Hs).
    + apply (IH (S i) (skip_tail _ _ _ _ Hs)). lia.
Qed.

Lemma exec_all_bracket (lastIndex : nat) (input : string) :
  lastIndex <= String.length input ->
  RegExp.exec_all RegExp.Bracket lastIndex input
  = (bracket_positions (RegExp.skip lastIndex input) lastIndex, 0).
Proof.
  remember RegExp.Bracket as p eqn:Hp.
  funelim (RegExp.exec_all p lastIndex input); intros Hle.
  - clear Heqcall H0. pose proof (RegExp.exec_at_bounds _ _ _ _ e) as (H1 & H2 & H3).
    replace (RegExp.index m =? RegExp.end_index m)%nat with false in *
      by (symmetry; apply Nat.eqb_neq; lia).
    rewrite (H H3). rewrite exec_at_search in e by exact Hle.
    pose proof (search_bracket input _ lastIndex eq_refl Hle) as Hsearch.
    rewrite e in Hsearch. now rewrite Hsearch.
  - clear Heqcall H. rewrite exec_at_search in e by exact Hle.
    pose proof (search_bracket input _ lastIndex eq_refl Hle) as Hsearch.
    rewrite e in Hsearch. now rewrite Hsearch.
Qed.

Lemma strip_brackets_app (a b : string) :
  strip_brackets (a +:+ b) = strip_brackets a +:+ strip_brackets b.
Proof.
  induction a as [|c a IH]; [reflexivity|].
  rewrite string_app_cons. simpl. destruct (_ || _); [exact IH|].
  rewrite string_app_cons. now rewrite IH.
Qed.

(** Brings a text made by appending into its normal form. *)
Ltac normalize_app :=
  repeat first
    [ rewrite string_app_assoc | rewrite string_app_nil_l
    | rewrite string_app_cons | rewrite string_app_nil_r ].

(** Putting the result together over the brackets of [s], when the text
    before [s] is [pre] and then [gap], of which [pre] has been dealt
    with and [gap] holds no bracket. *)
Lemma replace_brackets (input pre gap s acc : string) :
  input = pre +:+ gap +:+ s ->
  strip_brackets gap = gap ->
  (let '(accumulatedResult, nextSourcePosition) :=
     fold_left (RegExp.replace_step input "")
       (bracket_positions s (String.length pre + String.length gap))
       (acc, String.length pre) in
   accumulatedResult
     +:+ String.substring nextSourcePosition
           (String.length input - nextSourcePosition) input)
  = acc +:+ gap +:+ strip_brackets s.
Proof.
  revert pre gap acc; induction s as [|c t IH]; intros pre gap acc Hinput Hgap.
  - simpl. subst input.
    replace (String.length (pre +:+ gap +:+ "") - String.length pre)
      with (String.length gap) by (rewrite !string_length_app; simpl; lia).
    rewrite substring_middle. now rewrite string_app_nil_r.
  - cbn [bracket_positions strip_brackets]. fold (is_bracket c).
    destruct (is_bracket c) eqn:Hc.
    + cbn [fold_left RegExp.replace_step RegExp.index RegExp.end_index].
      replace (String.length pre <=? String.length pre + String.length gap)%nat
        with true by (symmetry; apply Nat.leb_le; lia).
      replace (String.length pre + String.length gap - String.length pre)
        with (String.length gap) by lia.
      assert (Hsub : String.substring (String.length pre) (String.length gap) input = gap)
        by (rewrite Hinput; apply substring_middle).
      rewrite Hsub.
      specialize (IH (pre +:+ gap +:+ String c "") "" (acc +:+ gap +:+ "")).
      rewrite !string_length_app in IH. simpl in IH.
      replace (String.length pre + (String.length gap + 1) + 0)
        with (S (String.length pre + String.length gap)) in IH by lia.
      replace (String.length pre + (String.length gap + 1))
        with (S (String.length pre + String.length gap)) in IH by lia.
      rewrite IH.
      * now normalize_app.
      * rewrite Hinput. now normalize_app.
      * reflexivity.
    + specialize (IH pre (gap +:+ String c "") acc).
      rewrite string_length_app in IH. simpl in IH.
      replace (String.length pre + (String.length gap + 1))
        with (S (String.length pre + String.length gap)) in IH by lia.
      rewrite IH.
      * now normalize_app.
      * rewrite Hinput. now normalize_app.
      * rewrite strip_brackets_app, Hgap. simpl. fold (is_bracket c). now rewrite Hc.
Qed.

(** [s.replace(/[\[\]]/g, '')] on a new object gives [s] without its
    brackets. *)
Lemma replaced_brackets (input : string) :
  RegExp.replaced input "" (fst (RegExp.exec_all RegExp.Bracket 0 input))
  = strip_brackets input /\
  snd (RegExp.exec_all RegExp.Bracket 0 input) = 0.
Proof.
  rewrite exec_all_bracket by lia. split; [|reflexivity].
  unfold RegExp.replaced. cbn [fst RegExp.skip].
  apply (replace_brackets input "" "" input ""); reflexivity.
Qed.

(** [content.match] with the marker pattern, on an object in any state:
    the search starts at 0 whatever [lastIndex] the object holds, and
    leaves it at 0. *)
Lemma String_match_object (content : string) (rx : nat) (object : RegExp.t)
    (h : RegExp.Heap) :
  h !! rx = Some object ->
  RegExp.pattern object = RegExp.CitationMarker ->
  RegExp.String_match content rx h
  = (String_match_global content,
     <[rx := {| RegExp.pattern := RegExp.CitationMarker; RegExp.lastIndex := 0 |}]> h).
Proof.
  intros Hrx Hp. unfold RegExp.String_match. rewrite Hrx, Hp.
  destruct (exec_all_marker 0 content) as [Hfst Hsnd]; [lia|].
  destruct (RegExp.exec_all RegExp.CitationMarker 0 content) as [results last].
  cbn [fst snd RegExp.skip] in Hfst, Hsnd. subst last.
  f_equal. unfold String_match_global.
  destruct results, (matches content); try discriminate Hfst; [reflexivity|].
  now rewrite Hfst.
Qed.

(** [m.replace] with the bracket pattern and the empty replacement, on
    an object in any state. *)
Lemma String_replace_object (m : string) (rx : nat) (object : RegExp.t)
    (h : RegExp.Heap) :
  h !! rx = Some object ->
  RegExp.pattern object = RegExp.Bracket ->
  RegExp.String_replace m rx "" h
  = (strip_brackets m,
     <[rx := {| RegExp.pattern := RegExp.Bracket; RegExp.lastIndex := 0 |}]> h).
Proof.
  intros Hrx Hp. unfold RegExp.String_replace. rewrite Hrx, Hp.
  destruct (replaced_brackets m) as [Hfst Hsnd].
  destruct (RegExp.exec_all RegExp.Bracket 0 m) as [results last].
  simpl in Hfst, Hsnd. subst last. now rewrite Hfst.
Qed.

(** A method called on the object a literal has just made. *)
Lemma String_match_new {A} (content : string)
    (k : option (list string) -> RegExp.St A) (h : RegExp.Heap) :
  RegExp.bind (RegExp.new_RegExp RegExp.CitationMarker)
    (fun citationRegex =>
       RegExp.bind (RegExp.String_match content citationRegex) k) h
  = k (String_match_global content)
      (h ++ [{| RegExp.pattern := RegExp.CitationMarker; RegExp.lastIndex := 0 |}])%list.
Proof.
  unfold RegExp.bind at 1, RegExp.new_RegExp. unfold RegExp.bind.
  rewrite (String_match_object content (length h)
             {| RegExp.pattern := RegExp.CitationMarker; RegExp.lastIndex := 0 |} _
             (list_lookup_middle h [] _ (length h) eq_refl) eq_refl).
  now rewrite (list_insert_id _ _ _ (list_lookup_middle h [] _ _ eq_refl)).
Qed.

Lemma String_replace_new {A} (m : string) (k : string -> RegExp.St A)
    (h : RegExp.Heap) :
  RegExp.bind (RegExp.new_RegExp RegExp.Bracket)
    (fun brackets => RegExp.bind (RegExp.String_replace m brackets "") k) h
  = k (strip_brackets m)
      (h ++ [{| RegExp.pattern := RegExp.Bracket; RegExp.lastIndex := 0 |}])%list.
Proof.
  unfold RegExp.bind at 1, RegExp.new_RegExp. unfold RegExp.bind.
  rewrite (String_replace_object m (length h)
             {| RegExp.pattern := RegExp.Bracket; RegExp.lastIndex := 0 |} _
             (list_lookup_middle h [] _ (length h) eq_refl) eq_refl).
  now rewrite (list_insert_id _ _ _ (list_lookup_middle h [] _ _ eq_refl)).
Qed.

(** The objects a run of [parseCitations] makes, as it leaves them: the
    one of the marker pattern, and one of the bracket pattern for each
    match when there are sources. *)
Definition allocated (content : string) (sources : option (list Page.ApiSource.t))
  : RegExp.Heap :=
  {| RegExp.pattern := RegExp.CitationMarker; RegExp.lastIndex := 0 |}
  :: match String_match_global content with
     | Some matches =>
         if (0 <? length (default [] sources))%nat
         then replicate (length matches)
                {| RegExp.pattern := RegExp.Bracket; RegExp.lastIndex := 0 |}
         else []
     | None => []
     end.

Lemma Array_map_strip (ms : list string) (h : RegExp.Heap) :
  RegExp.Array_map
    (fun m =>
       RegExp.bind (RegExp.new_RegExp RegExp.Bracket)
         (fun brackets =>
            RegExp.bind (RegExp.String_replace m brackets "")
              (fun digits => RegExp.ret (parseInt digits))))
    ms h
  = (map (fun m => parseInt (strip_brackets m)) ms,
     (h ++ replicate (length ms)
             {| RegExp.pattern := RegExp.Bracket; RegExp.lastIndex := 0 |})%list).
Proof.
  revert h; induction ms as [|m ms IH]; intros h.
  - simpl. unfold RegExp.ret. now rewrite app_nil_r.
  - cbn [RegExp.Array_map]. unfold RegExp.bind at 1.
    rewrite String_replace_new. unfold RegExp.ret at 1. cbv beta iota.
    unfold RegExp.bind at 1. rewrite IH.
    unfold RegExp.ret. cbn [map length replicate]. now rewrite <- app_assoc.
Qed.

(** The parser with its objects computes what the parser without them
    does, on any heap, and changes no object that was there: it only
    adds its own. *)
Lemma parseCitations_objects (content : string)
    (sources : option (list Page.ApiSource.t)) (h : RegExp.Heap) :
  Stateful.parseCitations content sources h
  = (Page.parseCitations content sources, (h ++ allocated content sources)%list).
Proof.
  unfold Stateful.parseCitations, Page.parseCitations, allocated.
  rewrite String_match_new.
  destruct (String_match_global content) as [ms|].
  - destruct (0 <? length (default [] sources))%nat.
    + unfold RegExp.bind at 1 2. rewrite Array_map_strip. unfold RegExp.ret.
      f_equal. exact (eq_sym (app_assoc h [_] _)).
    + unfold RegExp.bind, RegExp.ret. reflexivity.
  - unfold RegExp.bind, RegExp.ret. reflexivity.
Qed.

(** C8: the parser is a function of the text and the sources alone.
    Two runs on the same text and sources, the second on the heap the
    first has left, give the same citation list and the same token
    split; a run on any other heap gives the same result again, which is
    that of the parser without its objects; and a run changes no
    regular-expression object that was there before it. *)
Theorem parseCitations_idempotent (content : string)
    (sources : option (list Page.ApiSource.t)) (h h' : RegExp.Heap) :
  let first := Stateful.parseCitations content sources h in
  let second := Stateful.parseCitations content sources (snd first) in
  let other := Stateful.parseCitations content sources h' in
  Page.citations (fst first) = Page.citations (fst second) /\
  String_split (Page.text (fst first)) = String_split (Page.text (fst second)) /\
  fst other = fst first /\
  fst first = Page.parseCitations content sources /\
  h `prefix_of` snd first /\
  snd first `prefix_of` snd second.
Proof.
  intros first second other. unfold second, other, first.
  rewrite !parseCitations_objects. cbn [fst snd].
  repeat split; eexists; reflexivity.
Qed.

(** ** Rendering *)

Lemma render_part_text (message : Page.Message) (i : nat) (part : string) :
  String_match part = None ->
  Page.render_part message i part = Page.Span i part.
Proof. intros H. unfold Page.render_part. now rewrite H. Qed.

Lemma render_part_marker (message : Page.Message) (i : nat) (ds : string)
    (citations : list Page.Citation.t) :
  all_digits ds = true -> ds <> "" ->
  Page.message_citations message = Some citations ->
  Page.render_part message i (marker ds)
  = match array_get citations (parseInt ds - 1) with
    | Some citation => Page.Button i citation (marker ds)
    | None => Page.Span i (marker ds)
    end.
Proof.
  intros Hds Hne Hc. unfold Page.render_part.
  rewrite (String_match_marker ds Hds Hne), Hc. reflexivity.
Qed.

(** No more citations than sources. *)
Lemma citations_length (content : string) (sources : option (list Page.ApiSource.t)) :
  (length (Page.citations (Page.parseCitations content sources))
   <= length (default [] sources))%nat.
Proof.
  rewrite parseCitations_omap.
  set (available := default [] sources).
  set (ns := Set_of_list (marker_numbers content)).
  rewrite <- (Forall2_length _ _ _ (resolve_filter available ns)).
  assert (filter (in_range available) ns ⊆+ seqZ 1 (Z.of_nat (length available))) as Hsub.
  { apply NoDup_submseteq.
    - apply NoDup_filter. apply (Set_of_list_first_occurrences (marker_numbers content)).
    - intros n [Hn _]%list_elem_of_filter. apply elem_of_seqZ.
      unfold in_range in Hn. lia. }
  apply submseteq_length in Hsub. rewrite length_seqZ in Hsub. lia.
Qed.

(** A marker becomes a button exactly when its number is a position in
    the message's citation list. *)
Lemma render_marker_button (content : string) (sources : option (list Page.ApiSource.t))
    (i : nat) (ds : string) :
  all_digits ds = true -> ds <> "" ->
  let message := Page.assistantMessage content sources in
  let resolved := Page.citations (Page.parseCitations content sources) in
  (exists citation label, Page.render_part message i (marker ds)
                          = Page.Button i citation label)
  <-> (1 <= parseInt ds <= Z.of_nat (length resolved))%Z.
Proof.
  intros Hds Hne message resolved.
  rewrite (render_part_marker message i ds resolved Hds Hne eq_refl).
  pose proof (array_get_in_range resolved (parseInt ds - 1)) as Hrange.
  destruct (array_get resolved (parseInt ds - 1)) as [c|].
  - split; [|eauto]. intros _.
    assert (is_Some (Some c)) as H%Hrange by eauto. lia.
  - split.
    + intros (c & label & H). discriminate H.
    + intros H. assert (is_Some (@None Page.Citation.t)) as [c Hc]; [|discriminate Hc].
      apply Hrange. lia.
Qed.

(** X24: a marker whose number exceeds the number of sources is
    rendered as the literal text of the marker. *)
Lemma render_dangling_marker (content : string)
    (sources : option (list Page.ApiSource.t)) (i : nat) (ds : string) :
  all_digits ds = true -> ds <> "" ->
  (Z.of_nat (length (default [] sources)) < parseInt ds)%Z ->
  Page.render_part (Page.assistantMessage content sources) i (marker ds)
  = Page.Span i (marker ds).
Proof.
  intros Hds Hne Hlt.
  rewrite (render_part_marker (Page.assistantMessage content sources) i ds
             (Page.citations (Page.parseCitations content sources)) Hds Hne eq_refl).
  pose proof (citations_length content sources) as Hlen.
  pose proof (array_get_in_range
                (Page.citations (Page.parseCitations content sources))
                (parseInt ds - 1)) as Hrange.
  destruct (array_get _ (parseInt ds - 1)) as [c|]; [|reflexivity].
  assert (is_Some (Some c)) as H%Hrange by eauto. lia.
Qed.

Definition source (id : string) (page : value) (content : string) (similarity : Z)
  : Page.ApiSource.t :=
  {| Page.ApiSource.id := Some id;
     Page.ApiSource.page := page;
     Page.ApiSource.content := Some content;
     Page.ApiSource.similarity := VNumber (Number_of_Z similarity) |}.

Definition three_sources : list Page.ApiSource.t :=
  [ source "source-0" (VNumber (Number_of_Z 12)) "Carbohydrates" 1;
    source "source-1" (VNumber (Number_of_Z 45)) "Fats" 1;
    source "source-2" VNull "Proteins" 1 ].

(** A heap with an object of the marker pattern left in the middle of a
    search. *)
Definition searching : RegExp.Heap :=
  [{| RegExp.pattern := RegExp.CitationMarker; RegExp.lastIndex := 7 |}].

(** A run on that heap: three matches, two citations in the order of
    first mention, and four new objects; the object that was there is as
    it was. *)
Example parseCitations_on_heap :
  Stateful.parseCitations "Fats [2], carbs [1][2]." (Some three_sources) searching
  = ({| Page.text := "Fats [2], carbs [1][2].";
        Page.citations :=
          [ {| Page.Citation.id := "source-1";
               Page.Citation.page := Number_of_Z 45;
               Page.Citation.content := "Fats";
               Page.Citation.similarity := Number_of_Z 1 |};
            {| Page.Citation.id := "source-0";
               Page.Citation.page := Number_of_Z 12;
               Page.Citation.content := "Carbohydrates";
               Page.Citation.similarity := Number_of_Z 1 |} ] |},
     (searching
      ++ [ {| RegExp.pattern := RegExp.CitationMarker; RegExp.lastIndex := 0 |};
           {| RegExp.pattern := RegExp.Bracket; RegExp.lastIndex := 0 |};
           {| RegExp.pattern := RegExp.Bracket; RegExp.lastIndex := 0 |};
           {| RegExp.pattern := RegExp.Bracket; RegExp.lastIndex := 0 |} ])%list).
Proof. vm_compute. reflexivity. Qed.

(** [match] on the object left in the middle of a search: every marker
    is found, the first one too, and [lastIndex] is back at 0. *)
Example String_match_on_searching :
  RegExp.String_match "Fats [2], carbs [1][2]." 0 searching
  = (Some ["[2]"; "[1]"; "[2]"],
     [{| RegExp.pattern := RegExp.CitationMarker; RegExp.lastIndex := 0 |}]).
Proof. vm_compute. reflexivity. Qed.

(** Two markers and three sources: two citations, in the order of the
    markers. *)
Example parseCitations_two_markers :
  Page.citations (Page.parseCitations "X [1] and Y [2]." (Some three_sources))
  = [ {| Page.Citation.id := "source-0";
         Page.Citation.page := Number_of_Z 12;
         Page.Citation.content := "Carbohydrates";
         Page.Citation.similarity := Number_of_Z 1 |};
      {| Page.Citation.id := "source-1";
         Page.Citation.page := Number_of_Z 45;
         Page.Citation.content := "Fats";
         Page.Citation.similarity := Number_of_Z 1 |} ].
Proof. vm_compute. reflexivity. Qed.

(** A repeated marker, a marker without source and a source without
    page: the third source's citation takes the marker number as page. *)
Example parseCitations_mixed_markers :
  map Page.Citation.page
      (Page.citations
         (Page.parseCitations "A [3][1], B [9] [3] and [0]." (Some three_sources)))
  = [Number_of_Z 3; Number_of_Z 12].
Proof. vm_compute. reflexivity. Qed.

(** The marker [[9]] with three sources stays literal text. *)
Example render_message_dangling :
  Page.render_message (Page.assistantMessage "See [9]." (Some three_sources))
  = [Page.Span 0 "See "; Page.Span 1 "[9]"; Page.Span 2 "."].
Proof. vm_compute. reflexivity. Qed.

(** With the markers out of order, the button of [[1]] opens the
    citation of the third source, and [[3]] is a span. *)
Example render_message_out_of_order :
  Page.render_message (Page.assistantMessage "[3] then [1]" (Some three_sources))
  = [ Page.Span 0 "";
      Page.Span 1 "[3]";
      Page.Span 2 " then ";
      Page.Button 3 {| Page.Citation.id := "source-2";
                       Page.Citation.page := Number_of_Z 3;
                       Page.Citation.content := "Proteins";
                       Page.Citation.similarity := Number_of_Z 1 |} "[1]";
      Page.Span 4 "" ].
Proof. vm_compute. reflexivity. Qed.

(** C3 fails on the code.  With three sources, the marker [[2]] of the
    answer ["See [2]."] resolves to a citation, yet it is rendered as a
    plain span: the renderer looks the number up in the message's
    citation list, which has one entry, and not among the sources. *)
Theorem render_message_resolved_marker_is_span :
  let message := Page.assistantMessage "See [2]." (Some three_sources) in
  (exists c, Page.message_citations message = Some [c] /\
             Resolves three_sources 2 c) /\
  Page.render_message message
  = [Page.Span 0 "See "; Page.Span 1 "[2]"; Page.Span 2 "."].
Proof.
  intros message. split; [|reflexivity].
  destruct (resolve_in_range three_sources 2) as (c & Hc & Hres).
  { unfold in_range. simpl. lia. }
  exists c. split; [|exact Hres].
  unfold message, Page.assistantMessage. cbn [Page.message_citations].
  vm_compute in Hc. injection Hc as <-. reflexivity.
Qed.

(** ** The citation popup *)

(** The popups on screen. *)
Definition open_popups (st : Page.PopupState) : list Page.CitationPopup :=
  omap (fun overlay => match overlay with
                       | Page.PopupPanel popup => Some popup
                       | Page.Scrim => None
                       end)
       (Page.render_overlays st).

Definition scrim_rendered (st : Page.PopupState) : bool :=
  existsb (fun overlay => match overlay with
                            | Page.Scrim => true
                            | Page.PopupPanel _ => false
                            end)
          (Page.render_overlays st).

Lemma steps_snoc (st : Page.PopupState) (clicks : list Page.Click)
    (click : Page.Click) (st'' : Page.PopupState) :
  Page.steps st (clicks ++ [click]) st'' ->
  exists st', Page.steps st clicks st' /\ Page.step st' click st''.
Proof.
  revert st; induction clicks as [|c clicks IH]; intros st H.
  - inversion H as [|? ? st1 ? ? Hstep Hrest]; subst.
    inversion Hrest; subst. exists st. split; [constructor|exact Hstep].
  - inversion H as [|? ? st1 ? ? Hstep Hrest]; subst.
    destruct (IH _ Hrest) as (st' & Hsteps & Hlast).
    exists st'. split; [econstructor; eassumption|exact Hlast].
Qed.

Lemma open_popups_at_most_one (st : Page.PopupState) :
  (length (open_popups st) <= 1)%nat.
Proof. destruct st; simpl; lia. Qed.

(** C9: along any sequence of clicks from the closed state, at most one
    popup is on screen; a click on a citation leaves exactly the popup
    of that citation, placed at the left edge of the clicked control and
    10 above its top edge, whatever was open before; a click on the
    close button or on the scrim (both rendered only while a popup is
    open) leaves no popup. *)
Theorem popup_single_slot (clicks : list Page.Click) (st : Page.PopupState) :
  Page.steps None clicks st ->
  (length (open_popups st) <= 1)%nat /\
  (forall before citation rect,
      clicks = (before ++ [Page.ClickCitation citation rect])%list ->
      open_popups st
      = [ {| Page.citation := citation;
             Page.x := Page.left rect;
             Page.y := Number_sub (Page.top rect) (Number_of_Z 10) |} ] /\
      scrim_rendered st = true) /\
  (forall before click,
      clicks = (before ++ [click])%list ->
      click = Page.ClickClose \/ click = Page.ClickScrim ->
      st = None /\ open_popups st = [] /\ scrim_rendered st = false).
Proof.
  intros Hsteps. split; [apply open_popups_at_most_one|]. split.
  - intros before citation rect ->.
    apply steps_snoc in Hsteps as (st' & _ & Hstep).
    inversion Hstep; subst. split; reflexivity.
  - intros before click -> Hclick.
    apply steps_snoc in Hsteps as (st' & _ & Hstep).
    destruct Hclick as [-> | ->]; inversion Hstep; subst; repeat split.
Qed.

Definition example_citation (page : Z) (content : string) : Page.Citation.t :=
  {| Page.Citation.id := "source-0";
     Page.Citation.page := Number_of_Z page;
     Page.Citation.content := content;
     Page.Citation.similarity := Number_of_Z 1 |}.

Definition rect_at (left top : Z) : Page.DOMRect :=
  {| Page.left := Number_of_Z left; Page.top := Number_of_Z top |}.

Lemma popup_single_slot_witness :
  open_popups (Page.handleCitationClick (example_citation 45 "Fats") (rect_at 300 120))
  = [ {| Page.citation := example_citation 45 "Fats";
         Page.x := Number_of_Z 300;
         Page.y := Number_of_Z 110 |} ].
Proof.
  destruct (popup_single_slot
              [Page.ClickCitation (example_citation 12 "Carbohydrates") (rect_at 40 80);
               Page.ClickCitation (example_citation 45 "Fats") (rect_at 300 120)]
              (Page.handleCitationClick (example_citation 45 "Fats") (rect_at 300 120)))
    as (_ & Hopen & _).
  - econstructor; [constructor|]. econstructor; [constructor|]. constructor.
  - destruct (Hopen [Page.ClickCitation (example_citation 12 "Carbohydrates")
                                        (rect_at 40 80)]
                    (example_citation 45 "Fats") (rect_at 300 120) eq_refl)
      as [Hpopups _].
    rewrite Hpopups. vm_compute. reflexivity.
Defined.

(** * Further properties of the endpoint *)

Section EndpointOutcomes.
Context (host : Host) (services : Route.Services).

(** The 500 response of the [catch] block for what was thrown, and its
    log line. *)
Definition failure_response (e : thrown) : Route.Response :=
  Route.json_response 500
    (Route.ErrorBody (or_else (Route.description e) "Unknown error")).

Definition failure_log (e : thrown) : Route.event :=
  Route.ConsoleError "api/chat error:" (Route.description e).

Definition retrieval_call (queryEmb : list number) : Route.event :=
  Route.SupabaseRpc "match_documents" queryEmb 8 "human-nutrition-text.pdf".

Definition generation_call (message : string) (r : Route.RpcResult) : Route.event :=
  Route.ChatCompletionsCreate "gpt-4o-mini" Route.temperature Route.system_prompt
    (Route.user_prompt message (Route.context host (Route.data r))).

(** Every way a request can go, with the response and the log of each. *)
Inductive Outcome (req : Route.NextRequest)
  : (throwable + Route.Response) * list Route.event -> Prop :=
  | outcome_unparsed e :
      Route.json req = inl e ->
      Outcome req (inr (failure_response e), [failure_log e])
  | outcome_unprintable body e :
      Route.json req = inr body ->
      toString_method host (nullish (optional_get body "message") (VString "")) = inl e ->
      Outcome req (inr (failure_response e), [failure_log e])
  | outcome_empty body text :
      Route.json req = inr body ->
      toString_method host (nullish (optional_get body "message") (VString "")) = inr text ->
      trim text = "" ->
      Outcome req (inr (Route.json_response 400 (Route.ErrorBody "Empty query")), [])
  | outcome_embedding_failed message e :
      Accepted host req message ->
      (Route.embeddings_create services embedding_model message = inl e \/
       Route.embeddings_create services embedding_model message = inr [] /\
       e = TypeError host "resp.data[0].embedding") ->
      Outcome req (inr (failure_response e),
                   [Route.EmbeddingsCreate embedding_model message; failure_log e])
  | outcome_retrieval_failed message queryEmb r e :
      Retrieves host services req message queryEmb r ->
      Route.error r = Some e ->
      Outcome req (inr (failure_response e),
                   [Route.EmbeddingsCreate embedding_model message;
                    retrieval_call queryEmb; failure_log e])
  | outcome_nothing_found message queryEmb r :
      Retrieves host services req message queryEmb r ->
      Route.error r = None ->
      default [] (Route.data r) = [] ->
      Outcome req (inr (Route.json_response 200
                          (Route.AnswerBody Route.fallback_answer [])),
                   [Route.EmbeddingsCreate embedding_model message;
                    retrieval_call queryEmb])
  | outcome_generation_failed message queryEmb r e :
      Retrieves host services req message queryEmb r ->
      Route.error r = None ->
      default [] (Route.data r) <> [] ->
      Route.chat_completions_create services "gpt-4o-mini" Route.temperature
        Route.system_prompt
        (Route.user_prompt message (Route.context host (Route.data r))) = inl e ->
      Outcome req (inr (failure_response e),
                   [Route.EmbeddingsCreate embedding_model message;
                    retrieval_call queryEmb; generation_call message r;
                    failure_log e])
  | outcome_answered message queryEmb r choices :
      Retrieves host services req message queryEmb r ->
      Route.error r = None ->
      default [] (Route.data r) <> [] ->
      Route.chat_completions_create services "gpt-4o-mini" Route.temperature
        Route.system_prompt
        (Route.user_prompt message (Route.context host (Route.data r))) = inr choices ->
      Outcome req (inr (Route.json_response 200
                          (Route.AnswerBody (Route.answer_of choices)
                             (Route.processedSources (Route.data r)))),
                   [Route.EmbeddingsCreate embedding_model message;
                    retrieval_call queryEmb; generation_call message r]).

(** A thrown value whose string is at hand prints as that string. *)
Lemma error_message_of_thrown (e : thrown) :
  Route.error_message host (throwable_of e) = inr (Route.description e).
Proof. now destruct e. Qed.

Lemma catch_block_of_thrown (e : thrown) (calls : list Route.event) :
  Route.catch_block host (throwable_of e) calls
  = (inr (failure_response e), (calls ++ [failure_log e])%list).
Proof.
  unfold Route.catch_block, Route.bind, Route.lift.
  rewrite error_message_of_thrown. reflexivity.
Qed.

Lemma handle_outcome (req : Route.NextRequest) :
  Outcome req (Route.handle host services req).
Proof.
  unfold Route.handle, Route.run, Route.POST, Route.try_catch.
  fold (Route.catch_block host).
  unfold Route.bind, Route.lift, Route.await,
    Route.embedQuery, Route.bind, Route.lift, Route.await, Route.emit, Route.ret,
    Route.throw.
  destruct (Route.json req) as [e|body] eqn:Hjson; simpl.
  { rewrite catch_block_of_thrown. now apply outcome_unparsed. }
  destruct (toString_method host _) as [e|text] eqn:Htext; simpl.
  { rewrite catch_block_of_thrown. now apply (outcome_unprintable req body). }
  destruct (trim text) as [|x t] eqn:Htrim; simpl.
  { now apply (outcome_empty req body text). }
  assert (Hacc : Accepted host req (String x t)).
  { rewrite <- Htrim. apply (accepted_intro host req body text); congruence. }
  fold embedding_model.
  destruct (Route.embeddings_create services embedding_model (String x t))
    as [e|[|queryEmb others]] eqn:Hemb; simpl.
  { rewrite catch_block_of_thrown.
    apply (outcome_embedding_failed req (String x t) e); [assumption|now left]. }
  { change (IsError (host_type_error host "resp.data[0].embedding"))
      with (throwable_of (TypeError host "resp.data[0].embedding")).
    rewrite catch_block_of_thrown.
    apply (outcome_embedding_failed req (String x t)
             (TypeError host "resp.data[0].embedding")); [assumption|now right]. }
  assert (Hret : Retrieves host services req (String x t) queryEmb
                   (Route.supabase_rpc services "match_documents" queryEmb 8
                      "human-nutrition-text.pdf")).
  { now apply (retrieves_intro host services req (String x t) queryEmb others). }
  set (r := Route.supabase_rpc services "match_documents" queryEmb 8
              "human-nutrition-text.pdf") in *.
  destruct (Route.error r) as [e|] eqn:Herr.
  { rewrite catch_block_of_thrown.
    now apply (outcome_retrieval_failed req (String x t) queryEmb r). }
  destruct (decide (default [] (Route.data r) = [])) as [Hdata|Hdata].
  { rewrite (proj2 (context_empty host (Route.data r)) Hdata). simpl.
    now apply (outcome_nothing_found req (String x t) queryEmb r). }
  rewrite is_empty_false by (now rewrite context_empty). simpl.
  destruct (Route.chat_completions_create services _ _ _ _) as [e|choices] eqn:Hchat.
  - simpl. rewrite catch_block_of_thrown.
    exact (outcome_generation_failed req (String x t) queryEmb r e
             Hret Herr Hdata Hchat).
  - exact (outcome_answered req (String x t) queryEmb r choices
             Hret Herr Hdata Hchat).
Qed.

Definition is_console_error (ev : Route.event) : bool :=
  match ev with
  | Route.ConsoleError _ _ => true
  | _ => false
  end.

(** The stage a logged call belongs to. *)
Inductive Stage : Type := Embedding | Retrieval | Generation.

Definition stage_of (ev : Route.event) : option Stage :=
  match ev with
  | Route.EmbeddingsCreate _ _ => Some Embedding
  | Route.SupabaseRpc _ _ _ _ => Some Retrieval
  | Route.ChatCompletionsCreate _ _ _ _ => Some Generation
  | Route.ConsoleError _ _ => None
  end.

(** X2: the services are called in pipeline order and at most once
    each: the calls of any request are an initial part of embedding,
    retrieval, generation. *)
Theorem POST_call_order (req : Route.NextRequest) :
  omap stage_of (snd (Route.handle host services req))
  `prefix_of` [Embedding; Retrieval; Generation].
Proof.
  destruct (handle_outcome req); simpl.
  - now exists [Embedding; Retrieval; Generation].
  - now exists [Embedding; Retrieval; Generation].
  - now exists [Embedding; Retrieval; Generation].
  - now exists [Retrieval; Generation].
  - now exists [Generation].
  - now exists [Generation].
  - now exists [].
  - now exists [].
Qed.

Lemma accepted_inv (req : Route.NextRequest) (message : string) (body : value)
    (text : string) :
  Accepted host req message ->
  Route.json req = inr body ->
  toString_method host (nullish (optional_get body "message") (VString "")) = inr text ->
  message = trim text /\ trim text <> "".
Proof.
  intros [body' text' Hbody' Htext' Hne] Hbody Htext.
  rewrite Hbody in Hbody'. injection Hbody' as <-.
  rewrite Htext in Htext'. injection Htext' as <-. now split.
Qed.

Lemma retrieves_accepted (req : Route.NextRequest) (message : string)
    (queryEmb : list number) (r : Route.RpcResult) :
  Retrieves host services req message queryEmb r -> Accepted host req message.
Proof. now intros [? ? ? ? ?]. Qed.

(** X3: the handler answers 400 exactly when the body parses and its
    message prints as nothing but white space. *)
Theorem POST_bad_request_iff (req : Route.NextRequest) :
  (exists resp log, Route.handle host services req = (inr resp, log) /\
                    Route.status resp = 400%Z)
  <-> exists body text,
        Route.json req = inr body /\
        toString_method host (nullish (optional_get body "message") (VString ""))
        = inr text /\
        whitespace_only text = true.
Proof.
  split.
  - intros (resp & log & Hrun & Hstatus).
    destruct (handle_outcome req); injection Hrun as <- <-; try discriminate Hstatus.
    exists body, text. repeat split; try assumption. now apply trim_whitespace_only.
  - intros (body & text & Hbody & Htext & Hws%trim_whitespace_only).
    assert (Hno : forall message, ~ Accepted host req message).
    { intros message Hacc.
      destruct (accepted_inv req message body text Hacc Hbody Htext). congruence. }
    destruct (handle_outcome req);
      try (exfalso; congruence);
      try (exfalso; eapply Hno; eauto using retrieves_accepted; fail).
    eexists _, _. split; reflexivity.
Qed.

(** X4: a body that cannot be parsed, or a message that cannot be
    printed (a JSON object with a [toString] entry of its own), is
    answered with a 500 carrying the failure; the validation is not
    reached and no service is called. *)
Theorem POST_unreadable_body (req : Route.NextRequest) (e : thrown) :
  Route.json req = inl e \/
  (exists body,
      Route.json req = inr body /\
      toString_method host (nullish (optional_get body "message") (VString ""))
      = inl e) ->
  Route.handle host services req
  = (inr (Route.json_response 500
            (Route.ErrorBody (or_else (Route.description e) "Unknown error"))),
     [Route.ConsoleError "api/chat error:" (Route.description e)]).
Proof.
  intros H.
  assert (Hno : forall message, ~ Accepted host req message).
  { intros message [body text Hbody Htext _].
    destruct H as [H|(body' & Hbody' & Htext')]; congruence. }
  destruct (handle_outcome req) as [e'|body' e'| | | | | |];
    try (exfalso; eapply Hno; eauto using retrieves_accepted; fail).
  - destruct H as [H|(body' & Hbody' & _)]; [|congruence].
    assert (e' = e) as -> by congruence. reflexivity.
  - destruct H as [H|(body'' & Hbody'' & Htext'')]; [congruence|].
    assert (e' = e) as -> by congruence. reflexivity.
  - exfalso. destruct H as [H|(body'' & Hbody'' & Htext'')]; congruence.
Qed.

(** X5: once retrieval has succeeded, the completion is asked for
    exactly when at least one passage was retrieved. *)
Theorem POST_generates_iff_passages (req : Route.NextRequest) (message : string)
    (queryEmb : list number) (r : Route.RpcResult) :
  Retrieves host services req message queryEmb r ->
  Route.error r = None ->
  (Exists (fun ev => is_generation ev = true) (snd (Route.handle host services req))
   <-> default [] (Route.data r) <> []).
Proof.
  intros Hret Herr.
  destruct Hret as [message queryEmb others [body text Hbody Htext Hne] Hemb].
  set (r := Route.supabase_rpc _ _ _ _ _) in *.
  assert (Hrun : exists rest,
             snd (Route.handle host services req)
             = if decide (default [] (Route.data r) = [])
               then [Route.EmbeddingsCreate embedding_model (trim text);
                     retrieval_call queryEmb]
               else Route.EmbeddingsCreate embedding_model (trim text)
                    :: retrieval_call queryEmb
                    :: generation_call (trim text) r :: rest).
  { unfold Route.handle, Route.run, Route.POST, Route.try_catch.
    fold (Route.catch_block host).
    unfold Route.bind, Route.lift, Route.await,
      Route.embedQuery, Route.bind, Route.lift, Route.await, Route.emit, Route.ret,
      Route.throw.
    rewrite Hbody. simpl. rewrite Htext. rewrite (is_empty_false _ Hne). simpl.
    fold embedding_model. rewrite Hemb. simpl. fold r. rewrite Herr.
    destruct (decide (default [] (Route.data r) = [])) as [Hdata|Hdata].
    - rewrite (proj2 (context_empty host (Route.data r)) Hdata). now exists [].
    - rewrite is_empty_false by (now rewrite context_empty). simpl.
      destruct (Route.chat_completions_create services _ _ _ _) as [e|choices];
        simpl; [rewrite catch_block_of_thrown; simpl|]; eauto. }
  destruct Hrun as [rest ->].
  destruct (decide (default [] (Route.data r) = [])) as [Hdata|Hdata].
  - split; [|contradiction]. intros H.
    apply Exists_cons in H as [H|H]; [discriminate H|].
    apply Exists_cons in H as [H|H]; [discriminate H|]. now apply Exists_nil in H.
  - split; [now intros _|]. intros _. do 2 apply Exists_cons_tl. now apply Exists_cons_hd.
Qed.

Lemma processedSources_nonempty (chunks : option (list Route.RetrievedChunk.t)) :
  default [] chunks <> [] -> Route.processedSources chunks <> [].
Proof.
  intros Hne Hnil. apply Hne. apply length_zero_iff_nil.
  apply (f_equal length) in Hnil. unfold Route.processedSources in Hnil.
  now rewrite length_imap in Hnil.
Qed.

(** X25: an answer that comes without sources is the fixed fallback
    text and no completion was asked for; an answer that comes with
    sources is the completion's text, and the completion was asked for.
    Model output is never returned without at least one source. *)
Theorem POST_sources_and_generation (req : Route.NextRequest)
    (resp : Route.Response) (log : list Route.event) (answer : string)
    (sources : list Route.ApiSource.t) :
  Route.handle host services req = (inr resp, log) ->
  Route.body resp = Route.AnswerBody answer sources ->
  (sources = [] ->
   answer = Route.fallback_answer /\
   Forall (fun ev => is_generation ev = false) log) /\
  (sources <> [] ->
   Exists (fun ev => is_generation ev = true) log).
Proof.
  intros Hrun Hbody.
  destruct (handle_outcome req); injection Hrun as <- <-;
    simpl in Hbody; try discriminate Hbody; injection Hbody as <- <-.
  - split; [|congruence]. intros _. split; [reflexivity|]. repeat constructor.
  - split.
    + intros Hnil. exfalso. now apply (processedSources_nonempty (Route.data r)).
    + intros _. do 2 apply Exists_cons_tl. now apply Exists_cons_hd.
Qed.

End EndpointOutcomes.

(** ** The endpoint and what its clients may throw *)

Section EndpointRejections.
Context (host : Host) (clients : Route.Clients).

(** Every way a request can go: the body or its message cannot be read,
    the query is empty, a stage fails, or the request is answered. *)
Lemma run_cases (req : Route.NextRequest) :
  (exists e : thrown,
      Route.run host clients req = Route.catch_block host (throwable_of e) []) \/
  Route.run host clients req
  = (inr (Route.json_response 400 (Route.ErrorBody "Empty query")), []) \/
  (exists f calls,
      StageFailure host clients req f calls /\
      Route.run host clients req = Route.catch_block host f calls) \/
  (exists answer sources calls,
      Route.run host clients req
      = (inr (Route.json_response 200 (Route.AnswerBody answer sources)), calls) /\
      Forall (fun ev => is_console_error ev = false) calls).
Proof.
  destruct (Route.json req) as [e|body] eqn:Hjson.
  { left. exists e. unfold Route.run, Route.POST, Route.try_catch, Route.bind,
      Route.lift. rewrite Hjson. reflexivity. }
  destruct (toString_method host (nullish (optional_get body "message") (VString "")))
    as [e|text] eqn:Htext.
  { left. exists e. unfold Route.run, Route.POST, Route.try_catch, Route.bind,
      Route.lift. rewrite Hjson. simpl. rewrite Htext. reflexivity. }
  destruct (trim text) as [|x t] eqn:Htrim.
  { right; left. unfold Route.run, Route.POST, Route.try_catch, Route.bind,
      Route.lift. rewrite Hjson. simpl. rewrite Htext. simpl. rewrite Htrim.
    reflexivity. }
  assert (Hacc : Accepted host req (String x t)).
  { rewrite <- Htrim. apply (accepted_intro host req body text); congruence. }
  destruct (Route.openai_embeddings_create clients embedding_model (String x t))
    as [f|[|queryEmb others]] eqn:Hemb.
  { right; right; left.
    pose proof (embedding_rejects host clients req (String x t) f Hacc Hemb) as Hfail.
    eexists _, _. split; [exact Hfail|].
    exact (run_stage_failure host clients req _ _ Hfail). }
  { right; right; left.
    pose proof (embedding_missing host clients req (String x t) Hacc Hemb) as Hfail.
    eexists _, _. split; [exact Hfail|].
    exact (run_stage_failure host clients req _ _ Hfail). }
  destruct (Route.rpc_error (Route.supabase_rpc_call clients "match_documents"
                               queryEmb 8 "human-nutrition-text.pdf"))
    as [f|] eqn:Herr.
  { right; right; left.
    pose proof (retrieval_fails host clients req (String x t) queryEmb others f Hacc Hemb Herr) as Hfail.
    eexists _, _. split; [exact Hfail|].
    exact (run_stage_failure host clients req _ _ Hfail). }
  destruct (Route.rpc_data (Route.supabase_rpc_call clients "match_documents"
                              queryEmb 8 "human-nutrition-text.pdf"))
    as [chunks|] eqn:Hchunks.
  2:{ right; right; right. eexists _, _, _. split.
      - unfold Route.run, Route.POST, Route.try_catch, Route.bind, Route.lift,
          Route.await, Route.embedQuery, Route.bind, Route.lift, Route.await,
          Route.emit, Route.ret, Route.throw.
        rewrite Hjson. simpl. rewrite Htext. simpl. rewrite Htrim. simpl.
        fold embedding_model. rewrite Hemb. simpl. rewrite Herr, Hchunks.
        reflexivity.
      - repeat constructor. }
  destruct (decide (chunks = [])) as [->|Hdata].
  { right; right; right. eexists _, _, _. split.
    - unfold Route.run, Route.POST, Route.try_catch, Route.bind, Route.lift,
        Route.await, Route.embedQuery, Route.bind, Route.lift, Route.await,
        Route.emit, Route.ret, Route.throw.
      rewrite Hjson. simpl. rewrite Htext. simpl. rewrite Htrim. simpl.
      fold embedding_model. rewrite Hemb. simpl. rewrite Herr, Hchunks.
      reflexivity.
    - repeat constructor. }
  destruct (Route.openai_chat_completions_create clients "gpt-4o-mini"
              Route.temperature Route.system_prompt
              (Route.user_prompt (String x t) (Route.context host (Some chunks))))
    as [f|choices] eqn:Hchat.
  { right; right; left.
    pose proof (generation_rejects host clients req (String x t) queryEmb others
                 (Some chunks) f Hacc Hemb Herr Hchunks Hdata Hchat) as Hfail.
    eexists _, _. split; [exact Hfail|].
    exact (run_stage_failure host clients req _ _ Hfail). }
  right; right; right. eexists _, _, _. split.
  - unfold Route.run, Route.POST, Route.try_catch, Route.bind, Route.lift,
      Route.await, Route.embedQuery, Route.bind, Route.lift, Route.await,
      Route.emit, Route.ret, Route.throw.
    rewrite Hjson. simpl. rewrite Htext. simpl. rewrite Htrim. simpl.
    fold embedding_model. rewrite Hemb. simpl. rewrite Herr, Hchunks.
    rewrite is_empty_false by (now rewrite context_empty).
    simpl. rewrite Hchat. reflexivity.
  - repeat constructor.
Qed.

Lemma service_call_no_error (ev : Route.event) :
  is_service_call ev = true -> is_console_error ev = false.
Proof. now destruct ev. Qed.

(** X1: the handler answers every request, unless a stage fails with a
    value that is not an [Error] and cannot be printed: then the [catch]
    block throws in its turn and the handler rejects, with the
    [TypeError] of the conversion and after the calls made so far.  A
    response is a 200 with an answer body and no error logged, or the
    400 for an empty query with no call made, or a 500 with an error
    body, never empty, whose text is the last and only error logged. *)
Theorem POST_responds_or_rejects (req : Route.NextRequest) :
  (exists (resp : Route.Response) (log : list Route.event),
      Route.run host clients req = (inr resp, log) /\
      ((Route.status resp = 200%Z /\
        (exists answer sources, Route.body resp = Route.AnswerBody answer sources) /\
        Forall (fun ev => is_console_error ev = false) log) \/
       (Route.status resp = 400%Z /\
        Route.body resp = Route.ErrorBody "Empty query" /\
        log = []) \/
       (Route.status resp = 500%Z /\
        exists (message : string) (calls : list Route.event),
          Route.body resp = Route.ErrorBody (or_else message "Unknown error") /\
          or_else message "Unknown error" <> "" /\
          log = (calls ++ [Route.ConsoleError "api/chat error:" message])%list /\
          Forall (fun ev => is_console_error ev = false) calls))) \/
  (exists (v : value) (e : thrown) (calls : list Route.event),
      Route.run host clients req = (inl (throwable_of e), calls) /\
      StageFailure host clients req (NotError v) calls /\
      ToString host v = inl e).
Proof.
  assert (Hne : forall message, or_else message "Unknown error" <> "").
  { intros [|x t]; discriminate. }
  destruct (run_cases req)
    as [(e & ->)|[->|[(f & calls & Hfail & ->)|(answer & sources & calls & -> & Hcalls)]]].
  - left. rewrite catch_block_of_thrown. eexists _, _. split; [reflexivity|].
    right; right. split; [reflexivity|]. eexists _, []. repeat split; auto.
  - left. eexists _, _. split; [reflexivity|]. right; left. repeat split.
  - assert (Hcalls : Forall (fun ev => is_console_error ev = false) calls).
    { eapply Forall_impl; [exact (stage_failure_calls host clients req f calls Hfail)|].
      apply service_call_no_error. }
    destruct f as [message|v].
    + left. rewrite catch_block_error. eexists _, _. split; [reflexivity|].
      right; right. split; [reflexivity|]. exists message, calls. repeat split; auto.
    + rewrite catch_block_value. destruct (ToString host v) as [e|message] eqn:Hprint.
      * right. exists v, e, calls. repeat split; assumption.
      * left. eexists _, _. split; [reflexivity|].
        right; right. split; [reflexivity|]. exists message, calls. repeat split; auto.
  - left. eexists _, _. split; [reflexivity|]. left. split; [reflexivity|].
    split; [eauto|assumption].
Qed.

End EndpointRejections.

(** The context entry that corresponds to a normalized source. *)
Definition entry_of_source (host : Host) (source : Route.ApiSource.t) : string :=
  "[" +:+ pretty (Route.ApiSource.index source) +:+ "] (Page "
      +:+ match Route.ApiSource.page source with
          | Some page => Number_toString host page
          | None => "?"
          end
      +:+ ") " +:+ Route.ApiSource.content source.

(** X6: the context handed to the model and the sources handed to the
    page are aligned: the context is the blank-line join of one entry
    per returned source, numbered with that source's [index] and
    carrying its page and content.  So the ordinal [n] the model sees is
    the source [n] the page gets. *)
Theorem context_of_sources (host : Host) (chunks : option (list Route.RetrievedChunk.t)) :
  Route.context host chunks
  = String.concat (LF +:+ LF)
      (map (entry_of_source host) (Route.processedSources chunks)).
Proof.
  unfold Route.context, Route.processedSources.
  rewrite Array_join_concat. f_equal.
  generalize (default [] chunks) as passages. intros passages.
  change (map (entry_of_source host)) with (fmap (M := list) (entry_of_source host)).
  rewrite fmap_imap. apply imap_ext. intros i c _.
  unfold Route.context_entry, Route.pageNum, entry_of_source. simpl.
  reflexivity.
Qed.

(** * Further properties of the page *)

(** ** Splitting and rendering *)

Lemma String_split_length (s : string) :
  length (String_split s) = (2 * length (matches s) + 1)%nat.
Proof.
  induction s as [s IH] using string_length_induction.
  destruct s as [|c t]; [reflexivity|].
  destruct (match_at (String c t)) as [[ds rest]|] eqn:E.
  - rewrite (String_split_marker _ _ _ E), (matches_marker _ _ _ E).
    simpl. rewrite (IH rest) by (now apply match_at_shorter in E). lia.
  - destruct (String_split_char c t E) as (text & parts & Ht & ->).
    rewrite (matches_char c t E), <- (IH t) by (simpl; lia).
    now rewrite Ht.
Qed.

(** X7: [split] cuts the text into an odd number of parts; put
    together again they are the text; the parts at the odd positions are
    the markers, in the order of the text, and no part at an even
    position holds a marker. *)
Theorem String_split_shape (s : string) :
  String.concat "" (String_split s) = s /\
  length (String_split s) = (2 * length (matches s) + 1)%nat /\
  odd_parts (String_split s) = map marker (matches s) /\
  Forall (fun part => String_match part = None) (even_parts (String_split s)).
Proof.
  split; [apply String_split_concat|].
  split; [apply String_split_length|].
  split; [apply String_split_markers|apply String_split_texts].
Qed.

Lemma odd_parts_lookup (parts : list string) (k : nat) :
  odd_parts parts !! k = parts !! (2 * k + 1)%nat.
Proof.
  revert parts; induction k as [|k IH]; intros parts.
  - destruct parts as [|a [|b rest]]; reflexivity.
  - destruct parts as [|a [|b rest]]; try reflexivity.
    replace (2 * S k + 1)%nat with (S (S (2 * k + 1))) by lia.
    simpl. apply IH.
Qed.

Lemma even_parts_lookup (parts : list string) (k : nat) :
  even_parts parts !! k = parts !! (2 * k)%nat.
Proof.
  revert parts; induction k as [|k IH]; intros parts.
  - destruct parts as [|a rest]; reflexivity.
  - destruct parts as [|a [|b rest]]; try reflexivity.
    replace (2 * S k)%nat with (S (S (2 * k))) by lia.
    simpl. apply IH.
Qed.

(** The text a node shows. *)
Definition node_text (node : Page.Node) : string :=
  match node with
  | Page.Button _ _ label => label
  | Page.Span _ part => part
  end.

Lemma matches_nonempty (s : string) : Forall (fun ds => ds <> "") (matches s).
Proof.
  induction s as [s IH] using string_length_induction.
  destruct s as [|c t]; [simp matches; constructor|].
  destruct (match_at (String c t)) as [[ds rest]|] eqn:E.
  - rewrite (matches_marker _ _ _ E). constructor.
    + eapply match_at_nonempty. exact E.
    + apply IH. now apply match_at_shorter in E.
  - rewrite (matches_char c t E). apply IH. simpl. lia.
Qed.

(** Every part of a split is a marker or holds none. *)
Lemma String_split_parts (s : string) :
  Forall (fun part => String_match part = None \/
                      exists ds, all_digits ds = true /\ ds <> "" /\ part = marker ds)
         (String_split s).
Proof.
  apply Forall_lookup. intros i part Hi.
  destruct (Nat.Even_or_Odd i) as [[k ->]|[k ->]].
  - left. rewrite <- even_parts_lookup in Hi.
    pose proof (String_split_texts s) as H.
    rewrite Forall_lookup in H. exact (H k part Hi).
  - right. rewrite <- odd_parts_lookup, String_split_markers in Hi.
    rewrite list_lookup_fmap in Hi.
    destruct (matches s !! k) as [ds|] eqn:Hk; [|discriminate].
    injection Hi as <-. exists ds.
    pose proof (matches_digits s) as H. rewrite Forall_lookup in H.
    split; [exact (H k ds Hk)|]. split; [|reflexivity].
    pose proof (matches_nonempty s) as Hne. rewrite Forall_lookup in Hne.
    exact (Hne k ds Hk).
Qed.

Lemma render_part_shows_part (message : Page.Message) (i : nat) (part : string) :
  String_match part = None \/
  (exists ds, all_digits ds = true /\ ds <> "" /\ part = marker ds) ->
  node_text (Page.render_part message i part) = part.
Proof.
  intros [Hnone|(ds & Hds & Hne & ->)].
  - now rewrite render_part_text.
  - unfold Page.render_part. rewrite (String_match_marker ds Hds Hne).
    destruct (Page.message_citations message) as [citations|]; [|reflexivity].
    simpl. now destruct (array_get citations (parseInt ds - 1)).
Qed.

Lemma imap_fixes {A} (P : A -> Prop) (f : nat -> A -> A) (l : list A) :
  Forall P l -> (forall i x, P x -> f i x = x) -> imap f l = l.
Proof.
  intros Hl Hf. revert f Hf. induction Hl as [|x l Hx Hl IH]; intros f Hf.
  - reflexivity.
  - rewrite imap_cons, (Hf 0%nat x Hx). f_equal. apply IH.
    intros i y Hy. apply (Hf (S i) y Hy).
Qed.

(** X8: rendering shows the whole text and nothing else: the texts of
    the rendered nodes, buttons included, put together are the content
    of the message, whatever its citations. *)
Theorem render_message_shows_content (message : Page.Message) :
  String.concat "" (map node_text (Page.render_message message))
  = Page.content message.
Proof.
  unfold Page.render_message.
  rewrite <- (String_split_concat (Page.content message)) at 2. f_equal.
  change (map node_text) with (fmap (M := list) node_text).
  rewrite fmap_imap.
  apply (imap_fixes _ _ _ (String_split_parts (Page.content message))).
  intros i part Hpart. now apply render_part_shows_part.
Qed.

(** The buttons of a message open citations of that message. *)
Lemma buttons_are_citations (message : Page.Message) (citation : Page.Citation.t) :
  citation ∈ Home.buttons message ->
  exists citations,
    Page.message_citations message = Some citations /\ citation ∈ citations.
Proof.
  unfold Home.buttons, Page.render_message.
  intros (node & Hnode & Hbutton)%list_elem_of_omap.
  apply elem_of_lookup_imap_1 in Hnode as (i & part & -> & _).
  unfold Page.render_part in Hbutton.
  destruct (String_match part) as [group1|]; [|discriminate].
  destruct (Page.message_citations message) as [citations|]; [|discriminate].
  exists citations. split; [reflexivity|].
  destruct (array_get citations (parseInt group1 - 1)) as [c|] eqn:Hget;
    [|discriminate].
  injection Hbutton as <-.
  apply array_get_Some in Hget as [_ Hget]. eapply list_elem_of_lookup_2. exact Hget.
Qed.

(** X9: a message without a citation list (what the user typed, or the
    apology after a failure) and a message with an empty one show no
    button, whatever markers their text holds. *)
Theorem render_no_citations_no_buttons (message : Page.Message) :
  Page.message_citations message = None \/
  Page.message_citations message = Some [] ->
  Home.buttons message = [] /\
  Page.render_message message
  = imap Page.Span (String_split (Page.content message)).
Proof.
  intros H. assert (Hrender : Page.render_message message
                    = imap Page.Span (String_split (Page.content message))).
  { unfold Page.render_message. apply imap_ext. intros i part _.
    unfold Page.render_part. destruct (String_match part) as [group1|]; [|reflexivity].
    destruct H as [-> | ->]; [reflexivity|].
    simpl. unfold array_get. destruct (parseInt group1 - 1 <? 0)%Z; [reflexivity|].
    now rewrite lookup_nil. }
  split; [|exact Hrender].
  apply elem_of_nil_inv. intros citation Hc.
  apply buttons_are_citations in Hc as (citations & Hsome & Hin).
  destruct H as [H|H]; rewrite H in Hsome; [discriminate|].
  injection Hsome as <-. now apply elem_of_nil in Hin.
Qed.

(** X10: the node of the [k]-th marker of an assistant message is at
    position [2k+1]; it is a button exactly when the marker's number is
    a position of the message's citation list, and the button then opens
    the citation at that position; else it is a span with the marker's
    text. *)
Theorem render_message_marker_node (answer : string)
    (sources : option (list Page.ApiSource.t)) (k : nat) (ds : string) :
  matches answer !! k = Some ds ->
  let message := Page.assistantMessage answer sources in
  let resolved := Page.citations (Page.parseCitations answer sources) in
  Page.render_message message !! (2 * k + 1)%nat
  = Some match array_get resolved (parseInt ds - 1) with
         | Some citation => Page.Button (2 * k + 1) citation (marker ds)
         | None => Page.Span (2 * k + 1) (marker ds)
         end.
Proof.
  intros Hk message resolved. unfold Page.render_message.
  rewrite list_lookup_imap.
  change (Page.content message) with answer.
  rewrite <- odd_parts_lookup, String_split_markers, list_lookup_fmap, Hk. simpl.
  f_equal. apply render_part_marker.
  - pose proof (matches_digits answer) as H. rewrite Forall_lookup in H.
    exact (H k ds Hk).
  - pose proof (matches_nonempty answer) as H. rewrite Forall_lookup in H.
    exact (H k ds Hk).
  - reflexivity.
Qed.

(** ** Citation lists *)

Lemma omap_length_le {A B} (f : A -> option B) (l : list A) :
  (length (omap f l) <= length l)%nat.
Proof.
  induction l as [|x l IH]; [reflexivity|].
  change (omap f (x :: l))
    with (match f x with Some y => y :: omap f l | None => omap f l end).
  destruct (f x); simpl; lia.
Qed.

Lemma omap_nil_iff {A B} (f : A -> option B) (l : list A) :
  omap f l = [] <-> forall x, x ∈ l -> f x = None.
Proof.
  induction l as [|x l IH]; simpl.
  - split; [|reflexivity]. intros _ y Hy. now apply elem_of_nil in Hy.
  - destruct (f x) as [b|] eqn:Hfx.
    + split; [discriminate|]. intros H. specialize (H x (list_elem_of_here x l)). congruence.
    + rewrite IH. split.
      * intros H y [->|Hy]%elem_of_cons; auto.
      * intros H y Hy. apply H. now right.
Qed.

Lemma resolve_is_Some (sources : list Page.ApiSource.t) (n : Z) :
  is_Some (resolve sources n) <-> in_range sources n.
Proof.
  split.
  - intros [c Hc]. destruct (decide (in_range sources n)) as [H|H]; [exact H|].
    rewrite (resolve_out_of_range sources n H) in Hc. discriminate.
  - intros H. destruct (resolve_in_range sources n H) as (c & -> & _). eauto.
Qed.

(** X11: the parser never returns more citations than there are
    sources, nor more than there are distinct marker numbers. *)
Theorem parseCitations_count (content : string)
    (sources : option (list Page.ApiSource.t)) :
  (length (Page.citations (Page.parseCitations content sources))
   <= length (default [] sources))%nat /\
  (length (Page.citations (Page.parseCitations content sources))
   <= length (Set_of_list (marker_numbers content)))%nat.
Proof.
  split; [apply citations_length|].
  rewrite parseCitations_omap. apply omap_length_le.
Qed.

(** X12: the citation list is empty exactly when no marker number of
    the text is the ordinal of a source: in particular for a text
    without markers, and for a missing or empty source list. *)
Theorem parseCitations_empty_iff (content : string)
    (sources : option (list Page.ApiSource.t)) :
  Page.citations (Page.parseCitations content sources) = []
  <-> forall n, n ∈ marker_numbers content ->
                ~ (1 <= n <= Z.of_nat (length (default [] sources)))%Z.
Proof.
  rewrite parseCitations_omap, omap_nil_iff.
  destruct (Set_of_list_first_occurrences (marker_numbers content)) as (_ & Helem & _).
  split; intros H n Hn.
  - apply Helem in Hn. specialize (H n Hn). intros Hrange.
    assert (is_Some (resolve (default [] sources) n)) as [c Hc]
      by (now apply resolve_is_Some).
    congruence.
  - apply Helem in Hn. apply resolve_out_of_range. exact (H n Hn).
Qed.

Lemma omap_lookup_total {A B} (f : A -> option B) (l : list A) (i : nat) :
  (forall x, x ∈ l -> is_Some (f x)) ->
  omap f l !! i = l !! i ≫= f.
Proof.
  revert i; induction l as [|x l IH]; intros i Hall; [reflexivity|].
  destruct (Hall x (list_elem_of_here x l)) as [b Hb].
  simpl. rewrite Hb. destruct i as [|i]; simpl.
  - now rewrite Hb.
  - apply IH. intros y Hy. apply Hall. now right.
Qed.

(** X13: when the distinct marker numbers of the answer, in the order
    of their first occurrence, are 1, 2, ..., k and there are at least
    [k] sources, every marker is a button, and the button of [[n]] opens
    the citation resolved from source [n]. *)
Theorem render_markers_in_order (answer : string)
    (sources : option (list Page.ApiSource.t)) (k : nat) (i : nat) (ds : string) :
  Set_of_list (marker_numbers answer) = seqZ 1 (Z.of_nat k) ->
  (k <= length (default [] sources))%nat ->
  all_digits ds = true -> ds <> "" ->
  (1 <= parseInt ds <= Z.of_nat k)%Z ->
  exists citation,
    Page.render_part (Page.assistantMessage answer sources) i (marker ds)
    = Page.Button i citation (marker ds) /\
    Resolves (default [] sources) (parseInt ds) citation.
Proof.
  intros Hset Hk Hds Hne Hn.
  set (available := default [] sources) in *.
  assert (Hn' : in_range available (parseInt ds)) by (unfold in_range; lia).
  destruct (resolve_in_range available (parseInt ds) Hn') as (c & Hc & Hres).
  exists c. split; [|exact Hres].
  rewrite (render_part_marker (Page.assistantMessage answer sources) i ds
             (Page.citations (Page.parseCitations answer sources)) Hds Hne eq_refl).
  assert (Hget : array_get (Page.citations (Page.parseCitations answer sources))
                   (parseInt ds - 1) = Some c).
  { apply array_get_Some. split; [lia|].
    rewrite parseCitations_omap, Hset. fold available.
    rewrite omap_lookup_total.
    - rewrite (lookup_seqZ_lt 1 (Z.of_nat k) (Z.to_nat (parseInt ds - 1))) by lia.
      simpl. rewrite <- Hc. f_equal. lia.
    - intros n [Hn1 Hn2]%elem_of_seqZ. apply resolve_is_Some. unfold in_range. lia. }
  now rewrite Hget.
Qed.

(** ** The popup's excerpt *)

Lemma substring_all (s : string) (n : nat) :
  (String.length s <= n)%nat -> String.substring 0 n s = s.
Proof.
  revert n; induction s as [|c t IH]; intros n Hn.
  - now destruct n.
  - destruct n as [|n]; simpl in *; [lia|]. f_equal. apply IH. lia.
Qed.

Lemma substring_length (s : string) (n : nat) :
  String.length (String.substring 0 n s) = Nat.min n (String.length s).
Proof.
  revert n; induction s as [|c t IH]; intros n.
  - destruct n; reflexivity.
  - destruct n as [|n]; simpl; [reflexivity|]. now rewrite IH.
Qed.

(** X14: the popup shows a content of at most 200 characters in full,
    and of a longer one the first 200 characters followed by three dots:
    never more than 203 characters. *)
Theorem popup_excerpt_bounds (content : string) :
  (String.length (Home.popup_excerpt content) <= 203)%nat /\
  ((String.length content <= 200)%nat -> Home.popup_excerpt content = content) /\
  ((200 < String.length content)%nat ->
   Home.popup_excerpt content = String.substring 0 200 content +:+ "..." /\
   String.length (Home.popup_excerpt content) = 203%nat).
Proof.
  unfold Home.popup_excerpt.
  destruct (Nat.ltb_spec 200 (String.length content)) as [Hlong|Hshort].
  - split; [|split].
    + rewrite string_length_app, substring_length.
      change (String.length "...") with 3%nat. lia.
    + lia.
    + intros _. split; [reflexivity|].
      rewrite string_length_app, substring_length.
      change (String.length "...") with 3%nat. lia.
  - split; [|split].
    + rewrite string_app_nil_r, substring_length. lia.
    + intros _. rewrite string_app_nil_r. now apply substring_all.
    + lia.
Qed.

(** * Further properties: sending a message *)

Lemma trim_nonempty (s : string) : trim s <> "" <-> whitespace_only s = false.
Proof.
  rewrite <- not_true_iff_false, <- trim_whitespace_only. reflexivity.
Qed.

Definition is_sound (effect : Home.Effect) : bool :=
  match effect with
  | Home.PlaySound _ _ => true
  | _ => false
  end.

Definition request_body (input : string) : value :=
  VObject {[ "message" := VString input ]}.

(** X15: [sendMessage] does nothing at all (no state change, no sound,
    no request) when the input is empty or white space only, or while a
    request is pending; otherwise it appends the input as typed as a
    user message, clears the input, sets the busy flag and posts exactly
    one request, whose message is the input as typed, not trimmed. *)
Theorem sendMessage_begin_spec (st : Home.State) :
  (whitespace_only (Home.input st) = true \/ Home.isLoading st = true ->
   Home.sendMessage_begin st = None) /\
  (whitespace_only (Home.input st) = false -> Home.isLoading st = false ->
   exists st' sounds,
     Home.sendMessage_begin st
     = Some (st', (sounds ++ [Home.Fetch "/api/chat" "POST" "application/json"
                                         (request_body (Home.input st))])%list) /\
     Forall (fun effect => is_sound effect = true) sounds /\
     Home.messages st'
     = (Home.messages st ++ [Home.userMessage (Home.input st)])%list /\
     Home.input st' = "" /\
     Home.isLoading st' = true /\
     Home.citationPopup st' = Home.citationPopup st).
Proof.
  unfold Home.sendMessage_begin. split.
  - intros [Hws| ->].
    + apply trim_whitespace_only in Hws. now rewrite Hws.
    + now rewrite orb_true_r.
  - intros Hws%trim_nonempty ->. rewrite (is_empty_false _ Hws). simpl.
    eexists _, _. split; [reflexivity|]. split; [|repeat split].
    unfold Home.playLoadingSound, Home.playSound.
    destruct (Home.audioContext st); repeat constructor.
Qed.

Lemma sendMessage_begin_Some (st st' : Home.State) (effects : list Home.Effect) :
  Home.sendMessage_begin st = Some (st', effects) ->
  trim (Home.input st) <> "" /\
  Home.isLoading st = false /\
  Home.isLoading st' = true /\
  Home.messages st' = (Home.messages st ++ [Home.userMessage (Home.input st)])%list /\
  Home.citationPopup st' = Home.citationPopup st /\
  Home.audioContext st' = Home.audioContext st /\
  forall url method content_type body,
    Home.Fetch url method content_type body ∈ effects ->
    body = request_body (Home.input st).
Proof.
  unfold Home.sendMessage_begin.
  destruct (trim (Home.input st)) as [|c t] eqn:Htrim; simpl; [discriminate|].
  destruct (Home.isLoading st) eqn:Hloading; [discriminate|].
  intros [= <- <-]. repeat split; try discriminate.
  intros url method content_type body Hin.
  unfold Home.playLoadingSound, Home.playSound in Hin.
  destruct (Home.audioContext st); simpl in Hin.
  - apply elem_of_cons in Hin as [Hin|Hin]; [discriminate|].
    apply list_elem_of_singleton in Hin. now injection Hin as _ _ _ ->.
  - apply list_elem_of_singleton in Hin. now injection Hin as _ _ _ ->.
Qed.

Lemma sendMessage_end_appends (host : Host) (outcome : thrown + Home.ResponseData)
    (st : Home.State) :
  exists message,
    Home.messages (fst (Home.sendMessage_end host outcome st))
    = (Home.messages st ++ [message])%list /\
    Page.role message = Page.assistant /\
    (message = Home.errorMessage \/
     exists answer sources, message = Page.assistantMessage answer sources) /\
    Home.isLoading (fst (Home.sendMessage_end host outcome st)) = false /\
    Home.input (fst (Home.sendMessage_end host outcome st)) = Home.input st /\
    Home.citationPopup (fst (Home.sendMessage_end host outcome st))
    = Home.citationPopup st /\
    Home.audioContext (fst (Home.sendMessage_end host outcome st))
    = Home.audioContext st.
Proof.
  unfold Home.sendMessage_end.
  destruct outcome as [e|[|answer sources]]; simpl.
  - exists Home.errorMessage. repeat split. now left.
  - exists Home.errorMessage. repeat split. now left.
  - destruct answer as [| | | |answer| |]; simpl;
      try (exists Home.errorMessage; repeat split; now left).
    destruct sources as [| |sources]; simpl.
    + exists (Page.assistantMessage answer None). repeat split. right. eauto.
    + destruct (String_match_global answer); simpl.
      * exists Home.errorMessage. repeat split. now left.
      * exists (Page.assistantMessage answer None). repeat split. right. eauto.
    + exists (Page.assistantMessage answer (Some sources)). repeat split. right. eauto.
Qed.

Lemma String_match_global_matches (content : string) :
  String_match_global content = None <-> matches content = [].
Proof.
  unfold String_match_global.
  destruct (matches content); split; (reflexivity || discriminate).
Qed.

(** The message for an answer in which nothing is cited. *)
Definition plainMessage (answer : string) : Page.Message :=
  {| Page.role := Page.assistant;
     Page.content := answer;
     Page.message_citations := Some [] |}.

Lemma assistantMessage_plain (answer : string) :
  Page.assistantMessage answer None = plainMessage answer.
Proof.
  unfold Page.assistantMessage, Page.parseCitations, plainMessage. simpl.
  now destruct (String_match_global answer).
Qed.

(** X16: when the request settles with a failure of the fetch or of the
    JSON parse, or with a body that is [null] or an object whose
    [sources] entry is missing, [null] or an array of sources, exactly
    one assistant message is appended and the busy flag is cleared; the
    input and the popup are left alone.  The message is the parsed
    answer, with the response sound, when the body's [answer] is a
    string and its [sources] entry is missing or an array.  When the
    [answer] is a string and the [sources] entry is [null], the message
    is the answer without citations if the answer holds no marker, and
    the fixed apology if it holds one.  In every other case (the fetch
    or the JSON parse failed, the body is [null], or its [answer] is
    missing or not a string) it is the fixed apology.  With the apology
    the failure is logged and no sound is played. *)
Theorem sendMessage_end_spec (host : Host) (outcome : thrown + Home.ResponseData)
    (st : Home.State) :
  let after := Home.sendMessage_end host outcome st in
  let answered (message : Page.Message) :=
    Home.messages (fst after) = (Home.messages st ++ [message])%list /\
    snd after = Home.playResponseSound st in
  let apologized :=
    Home.messages (fst after) = (Home.messages st ++ [Home.errorMessage])%list /\
    exists error, snd after = [Home.ConsoleError "Error sending message:" error] in
  Home.isLoading (fst after) = false /\
  Home.input (fst after) = Home.input st /\
  Home.citationPopup (fst after) = Home.citationPopup st /\
  match outcome with
  | inr (Home.Data (VString answer) Home.SourcesMissing) =>
      answered (Page.assistantMessage answer None)
  | inr (Home.Data (VString answer) (Home.SourcesArray sources)) =>
      answered (Page.assistantMessage answer (Some sources))
  | inr (Home.Data (VString answer) Home.SourcesNull) =>
      (matches answer = [] -> answered (plainMessage answer)) /\
      (matches answer <> [] -> apologized)
  | _ => apologized
  end.
Proof.
  unfold Home.sendMessage_end.
  destruct outcome as [e|[|answer sources]]; simpl;
    try (repeat split; eauto; fail).
  destruct answer as [| | | |answer| |]; simpl;
    try (repeat split; eauto; fail).
  destruct sources as [| |sources]; simpl;
    try (repeat split; eauto; fail).
  destruct (String_match_global answer) as [ms|] eqn:Hm; simpl.
  - repeat split; eauto;
      match goal with
      | Hnone : matches answer = [] |- _ =>
          apply String_match_global_matches in Hnone; congruence
      end.
  - apply String_match_global_matches in Hm.
    repeat split; try reflexivity; try contradiction.
    now rewrite assistantMessage_plain.
Qed.

(** ** The page as a transition system *)

Lemma after_send_cases (w : Home.World) (sent : option (Home.State * list Home.Effect)) :
  Home.after_send w sent = w \/
  exists st effects,
    sent = Some (st, effects) /\
    Home.after_send w sent = {| Home.state := st; Home.in_flight := S (Home.in_flight w) |}.
Proof. destruct sent as [[st effects]|]; simpl; eauto. Qed.

Lemma handleKeyPress_sends (key : string) (shiftKey : bool) (st st' : Home.State)
    (effects : list Home.Effect) :
  Home.handleKeyPress key shiftKey st = Some (st', effects) ->
  Home.sendMessage_begin st = Some (st', effects).
Proof.
  unfold Home.handleKeyPress.
  now destruct (str_eq key "Enter" && negb shiftKey).
Qed.

(** What a step does to the conversation: nothing, a sent user message
    while idle, or a settled assistant message. *)
Inductive Conversation_step (w w' : Home.World) : Prop :=
  | conversation_same :
      Home.messages (Home.state w') = Home.messages (Home.state w) ->
      Home.isLoading (Home.state w') = Home.isLoading (Home.state w) ->
      Home.in_flight w' = Home.in_flight w ->
      Conversation_step w w'
  | conversation_sent input :
      Home.isLoading (Home.state w) = false ->
      Home.isLoading (Home.state w') = true ->
      Home.messages (Home.state w')
      = (Home.messages (Home.state w) ++ [Home.userMessage input])%list ->
      Home.in_flight w' = S (Home.in_flight w) ->
      Conversation_step w w'
  | conversation_settled message :
      Page.role message = Page.assistant ->
      Home.isLoading (Home.state w') = false ->
      Home.messages (Home.state w')
      = (Home.messages (Home.state w) ++ [message])%list ->
      Home.in_flight w = S (Home.in_flight w') ->
      Conversation_step w w'.

Lemma step_conversation (host : Host) (w : Home.World) (event : Home.Event)
    (w' : Home.World) :
  Home.step host w event w' -> Conversation_step w w'.
Proof.
  assert (Hsend : forall sent,
             (sent = None \/ exists st effects,
                 sent = Some (st, effects) /\
                 Home.sendMessage_begin (Home.state w) = Some (st, effects)) ->
             Conversation_step w (Home.after_send w sent)).
  { intros sent [->|(st & effects & -> & Hbegin)]; [now apply conversation_same|].
    apply sendMessage_begin_Some in Hbegin as (_ & Hidle & Hbusy & Hmsgs & _).
    now apply (conversation_sent _ _ (Home.input (Home.state w))). }
  intros Hstep. destruct Hstep.
  - now apply conversation_same.
  - apply Hsend.
    destruct (Home.handleKeyPress key shiftKey (Home.state w)) as [[st effects]|] eqn:E;
      [right|now left].
    exists st, effects. split; [reflexivity|]. now apply handleKeyPress_sends in E.
  - apply Hsend.
    destruct (Home.sendMessage_begin (Home.state w)) as [[st effects]|]; [right|now left].
    eauto.
  - destruct (sendMessage_end_appends host outcome (Home.state w))
      as (message & Hmsgs & Hrole & _ & Hidle & _).
    now apply (conversation_settled _ _ message).
  - now apply conversation_same.
  - now apply conversation_same.
  - now apply conversation_same.
Qed.

(** X17: in every world the page can reach, at most one request is in
    flight, and one is in flight exactly while the busy flag is set; the
    conversation alternates, user message first: the message at an even
    position is the user's, at an odd position the assistant's, and the
    last message is the user's exactly while a request is in flight. *)
Theorem reachable_conversation (host : Host) (w : Home.World) :
  Home.reachable host w ->
  Home.in_flight w = (if Home.isLoading (Home.state w) then 1 else 0)%nat /\
  Nat.even (length (Home.messages (Home.state w)))
  = negb (Home.isLoading (Home.state w)) /\
  forall (i : nat) (message : Page.Message),
    Home.messages (Home.state w) !! i = Some message ->
    Page.role message = if Nat.even i then Page.user else Page.assistant.
Proof.
  induction 1 as [audio|w event w' _ (Hflight & Hparity & Hroles) Hstep].
  - repeat split. intros i message H. simpl in H. now rewrite lookup_nil in H.
  - apply step_conversation in Hstep.
    destruct Hstep as [Hm Hl Hf|input Hidle Hbusy Hm Hf|message Hrole Hidle Hm Hf].
    + rewrite Hm, Hl, Hf. now repeat split.
    + rewrite Hm, Hbusy, Hf. rewrite Hidle in *. simpl in Hparity.
      split; [now rewrite Hflight|]. split.
      * rewrite length_app. simpl. rewrite Nat.add_1_r, Nat.even_succ.
        rewrite <- Nat.negb_even, Hparity. reflexivity.
      * intros i message [Hi|[Hi Hlast]]%lookup_app_Some; [now apply Hroles|].
        apply list_lookup_singleton_Some in Hlast as [Hi0 <-].
        replace i with (length (Home.messages (Home.state w))) by lia.
        now rewrite Hparity.
    + rewrite Hm, Hidle. rewrite Hf in Hflight.
      destruct (Home.isLoading (Home.state w)) eqn:Hbusy; [|discriminate Hflight].
      simpl in Hparity. split; [now injection Hflight|]. split.
      * rewrite length_app. simpl. rewrite Nat.add_1_r, Nat.even_succ.
        rewrite <- Nat.negb_even, Hparity. reflexivity.
      * intros i m [Hi|[Hi Hlast]]%lookup_app_Some; [now apply Hroles|].
        apply list_lookup_singleton_Some in Hlast as [Hi0 <-].
        replace i with (length (Home.messages (Home.state w))) by lia.
        now rewrite Hparity.
Qed.

(** X18: no event removes or rewrites a message: after a step the old
    conversation is an initial part of the new one, which is at most one
    message longer. *)
Theorem step_keeps_messages (host : Host) (w : Home.World) (event : Home.Event)
    (w' : Home.World) :
  Home.step host w event w' ->
  Home.messages (Home.state w) `prefix_of` Home.messages (Home.state w') /\
  (length (Home.messages (Home.state w')) <= S (length (Home.messages (Home.state w))))%nat.
Proof.
  intros Hstep. apply step_conversation in Hstep.
  destruct Hstep as [Hm _ _|input _ _ Hm _|message _ _ Hm _]; rewrite Hm.
  - split; [reflexivity|lia].
  - split; [now apply prefix_app_r|]. rewrite length_app. simpl. lia.
  - split; [now apply prefix_app_r|]. rewrite length_app. simpl. lia.
Qed.

(** X19: the popup only ever shows a citation of the conversation: in
    every reachable world the open popup's citation belongs to the
    citation list of one of the messages. *)
Theorem reachable_popup_cites_message (host : Host) (w : Home.World)
    (popup : Page.CitationPopup) :
  Home.reachable host w ->
  Home.citationPopup (Home.state w) = Some popup ->
  exists message citations,
    message ∈ Home.messages (Home.state w) /\
    Page.message_citations message = Some citations /\
    Page.citation popup ∈ citations.
Proof.
  intros Hreach. revert popup.
  induction Hreach as [audio|w event w' _ IH Hstep]; intros popup Hpopup;
    [discriminate|].
  assert (Hkeep : Home.citationPopup (Home.state w') = Home.citationPopup (Home.state w) ->
                  exists message citations,
                    message ∈ Home.messages (Home.state w') /\
                    Page.message_citations message = Some citations /\
                    Page.citation popup ∈ citations).
  { intros Hsame. rewrite Hsame in Hpopup.
    destruct (IH popup Hpopup) as (message & citations & Hin & Hc & Hcit).
    exists message, citations. split; [|now split].
    destruct (step_conversation host w event w' Hstep) as [Hm _ _|? _ _ Hm _|? _ _ Hm _];
      rewrite Hm; [assumption|apply elem_of_app; now left..]. }
  destruct Hstep as [w value|w key shiftKey|w|w n outcome Hn
                     |w message citation rect Hmessage Hbutton|w p Hp|w p Hp].
  - now apply Hkeep.
  - apply Hkeep.
    destruct (Home.handleKeyPress key shiftKey (Home.state w)) as [[st effects]|] eqn:E;
      [|reflexivity].
    apply handleKeyPress_sends, sendMessage_begin_Some in E. simpl. tauto.
  - apply Hkeep.
    destruct (Home.sendMessage_begin (Home.state w)) as [[st effects]|] eqn:E;
      [|reflexivity].
    apply sendMessage_begin_Some in E. simpl. tauto.
  - apply Hkeep. simpl.
    destruct (sendMessage_end_appends host outcome (Home.state w)) as (m & H).
    tauto.
  - simpl in Hpopup. injection Hpopup as <-. simpl.
    destruct (buttons_are_citations message citation Hbutton) as (citations & Hc & Hin).
    now exists message, citations.
  - discriminate Hpopup.
  - discriminate Hpopup.
Qed.

(** ** The page and the endpoint together *)

Lemma request_body_message (host : Host) (input : string) :
  toString_method host
    (nullish (optional_get (request_body input) "message") (VString ""))
  = inr input.
Proof.
  unfold request_body, optional_get. rewrite lookup_singleton_eq. reflexivity.
Qed.

(** X20: the page's guard and the endpoint's validation agree: a
    request the page sends is never answered with the 400 for an empty
    query; the endpoint always goes on to embed the page's input,
    trimmed. *)
Theorem page_request_is_embedded (host : Host) (services : Route.Services)
    (st st' : Home.State) (effects : list Home.Effect)
    (url method content_type : string) (body : value) :
  Home.sendMessage_begin st = Some (st', effects) ->
  Home.Fetch url method content_type body ∈ effects ->
  exists resp log,
    Route.handle host services (Wire.request_of body) = (inr resp, log) /\
    Route.status resp <> 400%Z /\
    head log = Some (Route.EmbeddingsCreate embedding_model (trim (Home.input st))).
Proof.
  intros Hbegin Hfetch.
  apply sendMessage_begin_Some in Hbegin as (Hne & _ & _ & _ & _ & _ & Hbody).
  rewrite (Hbody _ _ _ _ Hfetch). clear Hbody Hfetch.
  set (req := Wire.request_of (request_body (Home.input st))).
  assert (Hjson : Route.json req = inr (request_body (Home.input st))) by reflexivity.
  pose proof (request_body_message host (Home.input st)) as Htext.
  assert (Hmsg : forall message, Accepted host req message ->
                                 message = trim (Home.input st)).
  { intros message Hacc.
    now destruct (accepted_inv host req message _ _ Hacc Hjson Htext). }
  destruct (handle_outcome host services req)
    as [e He|b e Hb He|b text Hb Ht Hempty|message e Hacc _
        |message queryEmb r e Hret _|message queryEmb r Hret _ _
        |message queryEmb r e Hret _ _ _|message queryEmb r choices Hret _ _ _];
    [exfalso; congruence
    |exfalso; rewrite Hjson in Hb; injection Hb as <-; congruence
    |exfalso; rewrite Hjson in Hb; injection Hb as <-;
     rewrite Htext in Ht; injection Ht as <-; contradiction
    |pose proof Hacc as Hacc'
    |pose proof (retrieves_accepted host services _ _ _ _ Hret) as Hacc'..];
    (eexists _, _; split; [reflexivity|]; split; [discriminate|];
     simpl; now rewrite (Hmsg message Hacc')).
Qed.

(** X21: what the page shows for a response of the endpoint.  For a
    200 it appends the answer with the citations parsed against the
    returned sources; for a 400 or a 500 it appends the fixed apology:
    the endpoint's error text is never shown. *)
Theorem page_shows_response (host : Host) (services : Route.Services)
    (req : Route.NextRequest) (resp : Route.Response) (log : list Route.event)
    (st : Home.State) :
  Route.handle host services req = (inr resp, log) ->
  let shown :=
    Home.messages
      (fst (Home.sendMessage_end host (inr (Wire.received (Route.body resp))) st)) in
  (Route.status resp = 200%Z ->
   exists answer sources,
     Route.body resp = Route.AnswerBody answer sources /\
     shown = (Home.messages st
              ++ [Page.assistantMessage answer
                    (Some (map Wire.received_source sources))])%list) /\
  (Route.status resp <> 200%Z ->
   shown = (Home.messages st ++ [Home.errorMessage])%list).
Proof.
  intros Hrun shown. unfold shown.
  destruct (handle_outcome host services req);
    injection Hrun as <- <-; simpl;
    (split; [intros Hs; try discriminate Hs; eauto
            |intros Hs; try reflexivity; now destruct Hs]).
Qed.

(** A number as the page finds it after the response was written and
    read as JSON: itself when it is finite (minus zero as zero), and
    [fallback] when it is NaN or infinite and so arrives as [null]. *)
Definition arrives (n fallback : number) : number :=
  match Wire.json_number n with
  | VNumber m => m
  | _ => fallback
  end.

(** X22: the ordinals line up from end to end.  When the answer cites
    [[n]] and [n] is the position of a retrieved passage, the page's
    citation list holds a citation with that passage's content and the
    id of position [n-1]; its page is the passage's page if that is a
    finite number and [n] otherwise, and its similarity is the passage's
    if that is a finite number and 0 otherwise. *)
Theorem pipeline_citation (chunks : option (list Route.RetrievedChunk.t))
    (answer : string) (n : Z) (passage : Route.RetrievedChunk.t) :
  (1 <= n)%Z ->
  default [] chunks !! Z.to_nat (n - 1) = Some passage ->
  n ∈ marker_numbers answer ->
  exists citation,
    citation ∈ Page.citations
                 (Page.parseCitations answer
                    (Some (map Wire.received_source (Route.processedSources chunks)))) /\
    Page.Citation.content citation = Route.RetrievedChunk.content passage /\
    Page.Citation.id citation = "source-" +:+ pretty (Z.to_nat (n - 1)) /\
    Page.Citation.page citation
    = match passage_page passage with
      | VNumber page => arrives page (Number_of_Z n)
      | _ => Number_of_Z n
      end /\
    Page.Citation.similarity citation
    = match Route.RetrievedChunk.similarity passage with
      | VNumber similarity => arrives similarity (Number_of_Z 0)
      | _ => Number_of_Z 0
      end.
Proof.
  intros Hn Hpassage Hcited.
  set (sources := map Wire.received_source (Route.processedSources chunks)).
  assert (Hsource : sources !! Z.to_nat (n - 1)
                    = Some (Wire.received_source
                              {| Route.ApiSource.id := "source-" +:+ pretty (Z.to_nat (n - 1));
                                 Route.ApiSource.page := as_number (passage_page passage);
                                 Route.ApiSource.content := Route.RetrievedChunk.content passage;
                                 Route.ApiSource.similarity :=
                                   match as_number (Route.RetrievedChunk.similarity passage) with
                                   | Some similarity => similarity
                                   | None => Number_of_Z 0
                                   end;
                                 Route.ApiSource.index := Z.to_nat (n - 1) + 1 |})).
  { unfold sources, Route.processedSources.
    change (map Wire.received_source) with (fmap (M := list) Wire.received_source).
    rewrite list_lookup_fmap, list_lookup_imap, Hpassage. reflexivity. }
  assert (Hrange : in_range sources n).
  { unfold in_range. apply lookup_lt_Some in Hsource. lia. }
  destruct (resolve_in_range sources n Hrange) as (c & Hc & source & Hs & Hpage & Hcontent & Hsim & Hid).
  rewrite Hsource in Hs. injection Hs as <-.
  exists c. split.
  - rewrite parseCitations_omap. apply list_elem_of_omap. exists n. split; [|exact Hc].
    now apply (Set_of_list_first_occurrences (marker_numbers answer)).
  - simpl in *. split; [exact Hcontent|]. split; [exact Hid|]. split.
    + rewrite Hpage. unfold arrives.
      now destruct (passage_page passage).
    + rewrite Hsim. unfold arrives.
      now destruct (Route.RetrievedChunk.similarity passage).
Qed.

(** * Examples for the further properties *)

Definition answering_services (completion : thrown + list Route.Choice)
  : Route.Services :=
  services_with (inr [example_embedding]) (retrieved three_passages) completion.

Lemma question_retrieved (completion : thrown + list Route.Choice) :
  Retrieves example_host (answering_services completion)
            (request_with (VString (" " +:+ question +:+ LF)))
            question example_embedding (retrieved three_passages).
Proof.
  apply (retrieves_intro example_host (answering_services completion)
           _ question example_embedding []).
  - apply question_accepted.
  - reflexivity.
Defined.

Lemma POST_answer_witness :
  fst (Route.handle example_host
         (answering_services (completion_with "Carbohydrates [1]."))
         (request_with (VString (" " +:+ question +:+ LF))))
  = inr (Route.json_response 200
           (Route.AnswerBody "Carbohydrates [1]."
              (Route.processedSources (Some three_passages)))).
Proof.
  rewrite (POST_answer example_host
             (answering_services (completion_with "Carbohydrates [1]."))
             _ question example_embedding (retrieved three_passages)
             [ {| Route.message := Some {| Route.message_content := Some "Carbohydrates [1]." |} |} ]
             (question_retrieved _) eq_refl).
  - reflexivity.
  - discriminate.
  - reflexivity.
Defined.

Lemma POST_unreadable_body_witness :
  Route.handle example_host
    (answering_services (completion_with "Carbohydrates [1]."))
    (request_with (VObject {[ "toString" := VNumber (Number_of_Z 1) ]}))
  = (inr (Route.json_response 500 (Route.ErrorBody "TypeError at toString")),
     [Route.ConsoleError "api/chat error:" "TypeError at toString"]).
Proof.
  apply (POST_unreadable_body example_host _ _ (TypeError example_host "toString")).
  right. eexists. split; reflexivity.
Defined.

Lemma POST_generates_iff_passages_witness :
  Exists (fun ev => is_generation ev = true)
         (snd (Route.handle example_host
                 (answering_services (completion_with "Carbohydrates [1]."))
                 (request_with (VString (" " +:+ question +:+ LF))))).
Proof.
  apply (POST_generates_iff_passages example_host _ _ question example_embedding
           (retrieved three_passages) (question_retrieved _) eq_refl).
  discriminate.
Defined.

Lemma render_no_citations_no_buttons_witness :
  Page.render_message (Home.userMessage "as in [1]?")
  = [Page.Span 0 "as in "; Page.Span 1 "[1]"; Page.Span 2 "?"].
Proof.
  destruct (render_no_citations_no_buttons (Home.userMessage "as in [1]?"))
    as [_ Hrender]; [now left|].
  rewrite Hrender. reflexivity.
Defined.

Lemma render_message_marker_node_witness :
  Page.render_message (Page.assistantMessage "A [1], B [2]." (Some three_sources))
    !! 3%nat
  = Some (Page.Button 3
            {| Page.Citation.id := "source-1";
               Page.Citation.page := Number_of_Z 45;
               Page.Citation.content := "Fats";
               Page.Citation.similarity := Number_of_Z 1 |} "[2]").
Proof.
  exact (render_message_marker_node "A [1], B [2]." (Some three_sources) 1 "2" eq_refl).
Defined.

Lemma render_dangling_marker_witness :
  Page.render_part (Page.assistantMessage "See [9]." (Some three_sources)) 1 "[9]"
  = Page.Span 1 "[9]".
Proof.
  apply (render_dangling_marker "See [9]." (Some three_sources) 1 "9").
  - reflexivity.
  - discriminate.
  - vm_compute. reflexivity.
Defined.

Lemma render_markers_in_order_witness :
  exists citation,
    Page.render_part (Page.assistantMessage "A [1], B [2] and [1]." (Some three_sources))
                     3 "[2]"
    = Page.Button 3 citation "[2]" /\
    Page.Citation.content citation = "Fats".
Proof.
  destruct (render_markers_in_order "A [1], B [2] and [1]." (Some three_sources)
              2 3 "2")
    as (citation & Hbutton & source & Hsource & _ & Hcontent & _).
  - reflexivity.
  - simpl. lia.
  - reflexivity.
  - discriminate.
  - vm_compute. split; discriminate.
  - exists citation. split; [exact Hbutton|].
    injection Hsource as <-. exact Hcontent.
Defined.

(** A short session: the user types a question and sends it, the answer
    arrives, and the user clicks on its citation. *)
Definition typed : Home.World :=
  {| Home.state := Home.with_input (Home.initial true) "What is protein? ";
     Home.in_flight := 0 |}.

Definition sent : Home.World :=
  Home.after_send typed (Home.sendMessage_begin (Home.state typed)).

Definition protein_answer : Home.ResponseData :=
  Home.Data (VString "Protein is a macronutrient [1].")
            (Home.SourcesArray three_sources).

Definition answered : Home.World :=
  {| Home.state := fst (Home.sendMessage_end example_host (inr protein_answer)
                                             (Home.state sent));
     Home.in_flight := 0 |}.

(** A body whose [sources] entry is [null]: an answer that cites gets
    the apology although it is a string, and an answer that cites
    nothing is shown. *)
Example sendMessage_end_null_sources :
  Home.messages
    (fst (Home.sendMessage_end example_host
            (inr (Home.Data (VString "See [1].") Home.SourcesNull))
            (Home.state sent)))
  = (Home.messages (Home.state sent) ++ [Home.errorMessage])%list /\
  Home.messages
    (fst (Home.sendMessage_end example_host
            (inr (Home.Data (VString "See page 1.") Home.SourcesNull))
            (Home.state sent)))
  = (Home.messages (Home.state sent) ++ [plainMessage "See page 1."])%list.
Proof. split; vm_compute; reflexivity. Qed.

Definition first_citation : Page.Citation.t :=
  {| Page.Citation.id := "source-0";
     Page.Citation.page := Number_of_Z 12;
     Page.Citation.content := "Carbohydrates";
     Page.Citation.similarity := Number_of_Z 1 |}.

Definition clicked : Home.World :=
  {| Home.state := Home.with_popup (Home.state answered)
                     (Page.handleCitationClick first_citation (rect_at 300 120));
     Home.in_flight := 0 |}.

Lemma sent_reachable : Home.reachable example_host sent.
Proof.
  apply (Home.reachable_step example_host typed Home.ClickSend).
  - apply (Home.reachable_step example_host
             {| Home.state := Home.initial true; Home.in_flight := 0 |}
             (Home.Change "What is protein? ")).
    + apply Home.reachable_initial.
    + apply (Home.step_change example_host).
  - apply (Home.step_send example_host).
Defined.

Lemma answered_step :
  Home.step example_host sent (Home.Settled (inr protein_answer)) answered.
Proof. apply (Home.step_settled example_host sent 0). reflexivity. Defined.

Lemma clicked_reachable : Home.reachable example_host clicked.
Proof.
  apply (Home.reachable_step example_host answered
           (Home.PopupClick (Page.ClickCitation first_citation (rect_at 300 120)))).
  - apply (Home.reachable_step example_host sent (Home.Settled (inr protein_answer))).
    + apply sent_reachable.
    + apply answered_step.
  - apply (Home.step_citation example_host answered
             (Page.assistantMessage "Protein is a macronutrient [1]." (Some three_sources))).
    + vm_compute. repeat constructor.
    + vm_compute. repeat constructor.
Defined.

Lemma reachable_conversation_witness :
  Home.in_flight sent = 1%nat /\
  Home.isLoading (Home.state sent) = true /\
  Page.role <$> Home.messages (Home.state sent) !! 0%nat = Some Page.user.
Proof.
  destruct (reachable_conversation example_host sent sent_reachable)
    as (Hflight & _ & Hroles).
  split; [exact Hflight|]. split; [reflexivity|].
  specialize (Hroles 0%nat (Home.userMessage "What is protein? ") eq_refl).
  reflexivity.
Defined.

Lemma step_keeps_messages_witness :
  Home.messages (Home.state sent) `prefix_of` Home.messages (Home.state answered).
Proof.
  exact (proj1 (step_keeps_messages example_host sent _ answered answered_step)).
Defined.

Lemma reachable_popup_cites_message_witness :
  exists message citations,
    message ∈ Home.messages (Home.state clicked) /\
    Page.message_citations message = Some citations /\
    first_citation ∈ citations.
Proof.
  exact (reachable_popup_cites_message example_host clicked
           {| Page.citation := first_citation;
              Page.x := Number_of_Z 300;
              Page.y := Number_sub (Number_of_Z 120) (Number_of_Z 10) |}
           clicked_reachable eq_refl).
Defined.

Lemma page_request_is_embedded_witness :
  exists resp log,
    Route.handle example_host
      (answering_services (completion_with "Protein is a macronutrient [1]."))
      (Wire.request_of (request_body "What is protein? "))
    = (inr resp, log) /\
    Route.status resp <> 400%Z /\
    head log = Some (Route.EmbeddingsCreate embedding_model "What is protein?").
Proof.
  destruct (Home.sendMessage_begin (Home.state typed)) as [[st effects]|] eqn:Hbegin;
    [|discriminate Hbegin].
  apply (page_request_is_embedded example_host
           (answering_services (completion_with "Protein is a macronutrient [1]."))
           (Home.state typed) st effects "/api/chat" "POST" "application/json"
           (request_body "What is protein? ") Hbegin).
  injection Hbegin as _ <-. vm_compute. repeat constructor.
Defined.

Lemma page_shows_response_witness :
  Home.messages
    (fst (Home.sendMessage_end example_host
            (inr (Wire.received
                    (Route.ErrorBody "Unknown error")))
            (Home.state sent)))
  = [Home.userMessage "What is protein? "; Home.errorMessage].
Proof.
  destruct (page_shows_response example_host
              (services_with (inl (ErrorInstance "")) (retrieved three_passages)
                             (completion_with "Carbohydrates [1]."))
              (request_with (VString question))
              (Route.json_response 500 (Route.ErrorBody "Unknown error"))
              [Route.EmbeddingsCreate embedding_model question;
               Route.ConsoleError "api/chat error:" ""]
              (Home.state sent))
    as [_ Hfailed].
  - vm_compute. reflexivity.
  - apply Hfailed. discriminate.
Defined.

Lemma pipeline_citation_witness :
  exists citation,
    citation ∈ Page.citations
                 (Page.parseCitations "Fats [2]."
                    (Some (map Wire.received_source
                             (Route.processedSources (Some three_passages))))) /\
    Page.Citation.content citation = "Fats" /\
    Page.Citation.page citation = Number_of_Z 45 /\
    Page.Citation.similarity citation = Number_of_Z 0.
Proof.
  destruct (pipeline_citation (Some three_passages) "Fats [2]." 2
              (passage "Fats" (VString "0.8")
                 (VObject {[ "page" := VNumber (Number_of_Z 45) ]})))
    as (citation & Hin & Hcontent & _ & Hpage & Hsim).
  - lia.
  - reflexivity.
  - vm_compute. repeat constructor.
  - exists citation. split; [exact Hin|]. split; [exact Hcontent|].
    split; [exact Hpage|exact Hsim].
Defined.

Lemma POST_sources_and_generation_witness :
  Exists (fun ev => is_generation ev = true)
         (snd (Route.handle example_host
                 (answering_services (completion_with "Carbohydrates [1]."))
                 (request_with (VString (" " +:+ question +:+ LF))))).
Proof.
  destruct (Route.handle example_host
              (answering_services (completion_with "Carbohydrates [1]."))
              (request_with (VString (" " +:+ question +:+ LF))))
    as [[e|resp] log] eqn:Hrun; [discriminate Hrun|].
  apply (POST_sources_and_generation example_host
           (answering_services (completion_with "Carbohydrates [1]."))
           (request_with (VString (" " +:+ question +:+ LF)))
           resp log "Carbohydrates [1]."
           (Route.processedSources (Some three_passages)) Hrun).
  - injection Hrun as <- _. reflexivity.
  - discriminate.
Defined.
